(** * Kidsonics OneRiser: a shallow embedding of the DSP core

    This development embeds the real-time DSP core of the plugin
    ([Source/Components/pa.h], [CombFilter.h], [Filter.h], [Reverb.h] and
    [RiserProcessor.h]) and proves or refutes the properties stated in its
    specification.

    Modelling conventions.
    - [float] and [double] samples and gains are exact rationals [Q]: rounding,
      infinities and NaN are not modelled, except in module [Flt], which
      models the special values of the format for the final clamp of
      [RiserProcessor::process]. Float literals such as [0.1f] are taken at
      their decimal value; [M_PI] is taken at its exact double value.
    - [uint] values are [Z] with the 32-bit wrap-around written out ([u32]).
    - Conversions from floating point to [uint] or [int] truncate toward zero.
      They are defined in C++ only when the truncated value fits the target
      type; statements that depend on a converted value assume that range.
    - [HeapBlock::operator[]] maps every index [>= size] to [data[size]], one
      past the allocation (a null dereference for a block never allocated):
      undefined behaviour in C++. The model carries that location as
      [hb_end] only to follow the code's path there; the program does not
      determine its contents, and the properties proved below about values
      read from a buffer concern in-range indices, apart from the one that
      exhibits such a read (C6).
    - A division by zero in the filter coefficient computation is recorded in
      a small writer monad ([DZ]): the result carries a flag that is [true]
      when the executed path divided by zero.
    - A [std::vector] index out of range (undefined behaviour) is a fault:
      the function returns [None]. *)

From Stdlib Require Import QArith Qround Qfield Qabs ZArith List Lia Bool Lqa.
Import ListNotations.
Open Scope Q_scope.

(** ** Machine integers and helpers *)

Definition UINT_MOD : Z := (2 ^ 32)%Z.

(** [uint] arithmetic wraps modulo [2^32]. *)
Definition u32 (z : Z) : Z := Z.modulo z UINT_MOD.

Definition Qltb (a b : Q) : bool := negb (Qle_bool b a).

(** Truncation toward zero, as [int(x)] and [static_cast<uint>(x)] do. *)
Definition Qtrunc (q : Q) : Z :=
  if Qltb q 0 then (- Qfloor (- q))%Z else Qfloor q.

(** Conversion of a floating-point value to [uint]. *)
Definition to_uint (q : Q) : Z := u32 (Qtrunc q).

(** [pa::math::clamp] on [uint]. *)
Definition clampZ (v lo hi : Z) : Z :=
  if (v <? lo)%Z then lo else if (hi <? v)%Z then hi else v.

(** Update of element [n] of a list; out of range the list is unchanged. *)
Fixpoint list_set {A} (l : list A) (n : nat) (v : A) : list A :=
  match l, n with
  | [], _ => []
  | _ :: t, O => v :: t
  | h :: t, S n' => h :: list_set t n' v
  end.

(** *** Division tracking *)

(** A computation that may divide by zero: the flag is [true] when it did. *)
Definition DZ (A : Type) : Type := (A * bool)%type.

Definition dz_ret {A} (a : A) : DZ A := (a, false).

Definition dz_bind {A B} (m : DZ A) (f : A -> DZ B) : DZ B :=
  let (a, z) := m in let (b, z') := f a in (b, z || z').

Notation "'let/d' x ':=' m 'in' k" := (dz_bind m (fun x => k))
  (at level 200, x ident, m at level 100, k at level 200).

(** Floating-point division; the flag records a zero divisor. *)
Definition qdiv (a b : Q) : DZ Q := (a / b, Qeq_bool b 0).

(** *** Option monad for faults *)

Notation "'let/o' x ':=' m 'in' k" :=
  (match m with Some x => k | None => None end)
  (at level 200, x pattern, m at level 100, k at level 200).

(** ** [pa::math] *)
Module Math.

(** [pa::math::clamp] and [pa::math::setClamp]. *)
Definition clamp (v lo hi : Q) : Q :=
  if Qltb v lo then lo else if Qltb hi v then hi else v.

(** [pa::math::map]. *)
Definition map (v inMin inMax outMin outMax : Q) : Q :=
  ((v - inMin) / (inMax - inMin)) * (outMax - outMin) + outMin.

(** [pa::math::mod1]: [input - FloatType(int(input))]; [int(input)] is
    defined for [-2^31 - 1 < input < 2^31]. *)
Definition mod1 (input : Q) : Q := input - inject_Z (Qtrunc input).

(** [M_PI] at its double value. *)
Definition M_PI : Q := 884279719003555 # 281474976710656.

(** [std::fmod]. *)
Definition fmod (a b : Q) : Q := a - inject_Z (Qtrunc (a / b)) * b.

(** [pa::math::WrapPi]. *)
Definition WrapPi (input : Q) (useHalfPi : bool) : Q :=
  if useHalfPi then fmod (input - M_PI * (1 # 2)) M_PI - M_PI * (1 # 2)
  else fmod (input - M_PI) (2 * M_PI) - M_PI.

(** [pa::math::FastTan]. *)
Definition FastTan (x0 : Q) : DZ Q :=
  let x := WrapPi x0 true in
  let x2 := x * x in
  let num := x * (-135135 + x2 * (17325 + x2 * (-378 + x2))) in
  let den := -135135 + x2 * (62370 + x2 * (-3150 + 28 * x2)) in
  qdiv num den.

(** [pa::math::FastSin]; the denominator is a positive constant plus
    non-negative terms, so the division never has a zero divisor. *)
Definition FastSin (x0 : Q) : Q :=
  let x := WrapPi x0 false in
  let x2 := x * x in
  let num := - x * (-11511339840 + x2 * (1640635920 + x2 * (-52785432 + x2 * 479249))) in
  let den := 11511339840 + x2 * (277920720 + x2 * (3177720 + x2 * 18361)) in
  num / den.

(** [pa::math::FastCos]; the denominator is positive as for [FastSin]. *)
Definition FastCos (x0 : Q) : Q :=
  let x := WrapPi x0 false in
  let x2 := x * x in
  let num := - (-39251520 + x2 * (18471600 + x2 * (-1075032 + 14615 * x2))) in
  let den := 39251520 + x2 * (1154160 + x2 * (16632 + x2 * 127)) in
  num / den.

(** [pa::math::LinearInterp]. *)
Definition LinearInterp (a b t : Q) : Q :=
  if Qle_bool t 0 then a
  else if Qle_bool 1 t then b
  else a + t * (b - a).

(** [pa::math::Lerp]. *)
Definition Lerp (a b t : Q) : Q := LinearInterp a b t.

(** [pa::math::CubicInterp]. *)
Definition CubicInterp (a b c d t : Q) (useCatmullRom : bool) : Q :=
  if Qle_bool t 0 then b
  else if Qle_bool 1 t then c
  else
    let t2 := t * t in
    let '(a0, a1, a2) :=
      if useCatmullRom then
        ((-1 # 2) * a + (3 # 2) * b - (3 # 2) * c + (1 # 2) * d,
         a - (5 # 2) * b + 2 * c - (1 # 2) * d,
         (-1 # 2) * a + (1 # 2) * c)
      else
        let a0 := d - c - a + b in
        (a0, a - b - a0, c - a) in
    a0 * t * t2 + a1 * t2 + a2 * t + b.

(** [pa::math::ExpRounder]. *)
Definition ExpRounder (input curveValue : Q) : Q :=
  let x := clamp input (-1) 1 in
  let c := clamp curveValue (-1) 1 in
  let c := if Qle_bool 0 c then map c 0 1 0 20 else map c (-1) 0 (-(95 # 100)) 0 in
  if Qltb 0 x && Qle_bool x 1 then (x * (1 + c)) / (c * x + 1)
  else if Qle_bool (-1) x && Qle_bool x 0 then (- x * (1 + c)) / (c * x - 1)
  else 0.

End Math.

(** ** [juce::SmoothedValue<float>] (linear smoothing), as JUCE implements it *)
Module Smooth.

Record Smoothed := mkSmoothed {
  sv_current : Q;
  sv_target : Q;
  sv_countdown : Z;
  sv_step : Q;
  sv_stepsToTarget : Z
}.

(** [SmoothedValue(initialValue)]. *)
Definition init (v : Q) : Smoothed := mkSmoothed v v 0 0 0.

(** [setCurrentAndTargetValue]. *)
Definition setCurrentAndTargetValue (s : Smoothed) (v : Q) : Smoothed :=
  mkSmoothed v v 0 (sv_step s) (sv_stepsToTarget s).

(** [reset (sampleRate, rampLengthInSeconds)]. *)
Definition reset (s : Smoothed) (sampleRate : Z) (ramp : Q) : Smoothed :=
  let steps := Qfloor (ramp * inject_Z sampleRate) in
  setCurrentAndTargetValue
    (mkSmoothed (sv_current s) (sv_target s) (sv_countdown s) (sv_step s) steps)
    (sv_target s).

(** [setTargetValue]. *)
Definition setTargetValue (s : Smoothed) (v : Q) : Smoothed :=
  if Qeq_bool v (sv_target s) then s
  else if (sv_stepsToTarget s <=? 0)%Z then setCurrentAndTargetValue s v
  else mkSmoothed (sv_current s) v (sv_stepsToTarget s)
         ((v - sv_current s) / inject_Z (sv_stepsToTarget s)) (sv_stepsToTarget s).

(** [getNextValue]: the value and the advanced smoother. *)
Definition getNextValue (s : Smoothed) : Q * Smoothed :=
  if (sv_countdown s <=? 0)%Z then (sv_target s, s)
  else
    let c := (sv_countdown s - 1)%Z in
    if (0 <? c)%Z then
      let cur := sv_current s + sv_step s in
      (cur, mkSmoothed cur (sv_target s) c (sv_step s) (sv_stepsToTarget s))
    else (sv_target s, mkSmoothed (sv_target s) (sv_target s) c (sv_step s) (sv_stepsToTarget s)).

End Smooth.

(** ** [pa::dsp] interpolation kinds *)
Inductive InterpolationType :=
  noInterp | linearInterp | cosineInterp | cubicInterp | hermiteInterp.

(** ** [pa::dsp::HeapBlock<float>]: the allocation and the cell past its end *)
Module Heap.

Record HeapBlock := mkHeapBlock {
  hb_data : list Q;
  hb_end : Q
}.

Definition getSize (hb : HeapBlock) : Z := Z.of_nat (length (hb_data hb)).

(** [operator[]]: an index [>= size] goes to [data[size]], past the
    allocation ([hb_end]; undefined behaviour in C++). *)
Definition get (hb : HeapBlock) (index : Z) : Q :=
  if (getSize hb <=? index)%Z then hb_end hb
  else nth (Z.to_nat index) (hb_data hb) 0.

(** Assignment through [operator[]]. *)
Definition set (hb : HeapBlock) (index : Z) (v : Q) : HeapBlock :=
  if (getSize hb <=? index)%Z then mkHeapBlock (hb_data hb) v
  else mkHeapBlock (list_set (hb_data hb) (Z.to_nat index) v) (hb_end hb).

(** [reallocate]: the prefix is kept; the new tail is uninitialised memory,
    taken as zero (every caller clears the block right after). *)
Definition reallocate (hb : HeapBlock) (n : Z) : HeapBlock :=
  let k := Z.to_nat n in
  mkHeapBlock (firstn k (hb_data hb) ++ repeat 0 (k - length (hb_data hb))) (hb_end hb).

(** [initialise]: elements [0 .. size) set to zero. *)
Definition initialise (hb : HeapBlock) : HeapBlock :=
  mkHeapBlock (repeat 0 (length (hb_data hb))) (hb_end hb).

End Heap.

(** ** [pa::dsp::RingBuffer<float>] *)
Module Ring.
Import Heap Smooth.

Record RingBuffer := mkRing {
  buffer : HeapBlock;
  size : Z;
  writeIndex : Z;
  sampleRate : Z;
  delaySmoothTime : Q;
  delayTime : Smoothed
}.

(** A default-constructed buffer. *)
Definition init : RingBuffer :=
  mkRing (mkHeapBlock [] 0) 0 0 44100 0 (Smooth.init 0).

Definition with_buffer (rb : RingBuffer) (hb : HeapBlock) : RingBuffer :=
  mkRing hb (size rb) (writeIndex rb) (sampleRate rb) (delaySmoothTime rb) (delayTime rb).

Definition with_delayTime (rb : RingBuffer) (s : Smoothed) : RingBuffer :=
  mkRing (buffer rb) (size rb) (writeIndex rb) (sampleRate rb) (delaySmoothTime rb) s.

(** [clear]. *)
Definition clear (rb : RingBuffer) : RingBuffer :=
  with_buffer rb (initialise (buffer rb)).

(** [prepare (uint newBufferSizeSamples, uint newSampleRate)]. *)
Definition prepare (newBufferSizeSamples newSampleRate : Z) (rb : RingBuffer) : RingBuffer :=
  let n1 := clampZ newBufferSizeSamples 0
              (u32 (newBufferSizeSamples * newSampleRate * 10)) in
  let rb1 :=
    if negb (n1 =? size rb)%Z then
      let n2 := clampZ n1 0 (u32 (newSampleRate * 600)) in
      mkRing (reallocate (buffer rb) n2) n2 0 (sampleRate rb)
             (delaySmoothTime rb) (delayTime rb)
    else rb in
  let sr := if negb (newSampleRate =? sampleRate rb1)%Z then newSampleRate
            else sampleRate rb1 in
  let sr := if (sr =? 0)%Z then 1%Z else sr in
  clear (mkRing (buffer rb1) (size rb1) (writeIndex rb1) sr
                (delaySmoothTime rb1) (delayTime rb1)).

(** [prepare (FloatType newBufferSizeSeconds, uint newSampleRate)]. *)
Definition prepare_seconds (newBufferSizeSeconds : Q) (newSampleRate : Z)
    (rb : RingBuffer) : RingBuffer :=
  prepare (to_uint (newBufferSizeSeconds * inject_Z newSampleRate)) newSampleRate rb.

(** [setDelayTime (newDelayTime, smoothTime)]. *)
Definition setDelayTime (newDelayTime smoothTime : Q) (rb : RingBuffer) : RingBuffer :=
  let rb1 :=
    if negb (Qeq_bool smoothTime (delaySmoothTime rb)) then
      let st := Math.clamp smoothTime 0 smoothTime in
      mkRing (buffer rb) (size rb) (writeIndex rb) (sampleRate rb) st
             (Smooth.reset (delayTime rb) (sampleRate rb) st)
    else rb in
  let d := Math.clamp (Qabs newDelayTime) 0
             (inject_Z (size rb1) / inject_Z (sampleRate rb1)) in
  with_delayTime rb1 (setTargetValue (delayTime rb1) d).

(** The default smoothing time argument of [setDelayTime]. *)
Definition defaultSmoothTime : Q := 1 # 10.

(** [incrementWritePointer]. *)
Definition incrementWritePointer (rb : RingBuffer) : RingBuffer :=
  let w := u32 (writeIndex rb + 1) in
  let w := if (size rb <=? w)%Z then (w - size rb)%Z else w in
  mkRing (buffer rb) (size rb) w (sampleRate rb) (delaySmoothTime rb) (delayTime rb).

(** [forceIncrementWritePointer]. *)
Definition forceIncrementWritePointer (rb : RingBuffer) : RingBuffer :=
  incrementWritePointer rb.

(** [pushToBuffer (const FloatType* input)]; [None] is a null pointer. *)
Definition pushToBuffer (input : option Q) (rb : RingBuffer) : RingBuffer :=
  match input with
  | None => rb
  | Some x => incrementWritePointer (with_buffer rb (set (buffer rb) (writeIndex rb) x))
  end.

(** [getReadIndex]. *)
Definition getReadIndex (readOffset : Z) (rb : RingBuffer) : Z :=
  let tmp := u32 (writeIndex rb - readOffset + size rb) in
  if (size rb <=? tmp)%Z then (tmp - size rb)%Z else tmp.

(** [getFromBufferNoInterp]. *)
Definition getFromBufferNoInterp (rb : RingBuffer) : Q * RingBuffer :=
  let (delay, dt) := getNextValue (delayTime rb) in
  let readOffset := to_uint (inject_Z (sampleRate rb) * delay) in
  let readIndex := getReadIndex readOffset rb in
  (get (buffer rb) readIndex, with_delayTime rb dt).

(** [getFromBufferLinearInterp]. *)
Definition getFromBufferLinearInterp (rb : RingBuffer) : Q * RingBuffer :=
  let (delay, dt) := getNextValue (delayTime rb) in
  let readOffset := inject_Z (sampleRate rb) * delay in
  let readIndex := getReadIndex (to_uint readOffset) rb in
  (Math.LinearInterp (get (buffer rb) readIndex) (get (buffer rb) (u32 (readIndex - 1)))
     (Math.mod1 readOffset),
   with_delayTime rb dt).

(** [getFromBufferCubicInterp]. *)
Definition getFromBufferCubicInterp (rb : RingBuffer) : Q * RingBuffer :=
  let (delay, dt) := getNextValue (delayTime rb) in
  let readOffset := inject_Z (sampleRate rb) * delay in
  let readOffset := if Qltb readOffset 2 then 2 else readOffset in
  let readIndex := getReadIndex (to_uint readOffset) rb in
  let s1 := get (buffer rb) (u32 (readIndex + 1)) in
  let s2 := get (buffer rb) readIndex in
  let s3 := get (buffer rb) (u32 (readIndex - 1)) in
  let s4 := get (buffer rb) (u32 (readIndex - 2)) in
  (Math.CubicInterp s1 s2 s3 s4 (Math.mod1 readOffset) true, with_delayTime rb dt).

(** [getFromBuffer (interp)]. *)
Definition getFromBuffer (interp : InterpolationType) (rb : RingBuffer) : Q * RingBuffer :=
  match interp with
  | noInterp => getFromBufferNoInterp rb
  | linearInterp => getFromBufferLinearInterp rb
  | cubicInterp => getFromBufferCubicInterp rb
  | _ => getFromBufferNoInterp rb
  end.

(** [getAndPush (FloatType* input)]: the value left in [*input]. *)
Definition getAndPush (input : option Q) (rb : RingBuffer) : option Q * RingBuffer :=
  match input with
  | None => (None, rb)
  | Some x =>
      let rb1 := pushToBuffer (Some x) rb in
      let (v, rb2) := getFromBuffer noInterp rb1 in (Some v, rb2)
  end.

End Ring.

(** ** [pa::dsp::CombFilter] *)
Module Comb.
Import Ring.

Record Parameters := mkParams {
  freq : Q;
  wet : Q;
  feedback : Q;
  interpType : InterpolationType
}.

Definition defaultParameters : Parameters := mkParams 0 0 0 noInterp.

Record CombFilter := mkComb {
  delay : RingBuffer;
  parameters : Parameters
}.

Definition init : CombFilter := mkComb Ring.init defaultParameters.

(** [prepare (uint newSampleRate)]. *)
Definition prepare (newSampleRate : Z) (cf : CombFilter) : CombFilter :=
  mkComb (setDelayTime 0 defaultSmoothTime
            (Ring.prepare newSampleRate newSampleRate (delay cf)))
         (parameters cf).

(** [setParameters (newParams, freqOffset)]; [1.0f / 0] (an infinite delay
    time, clamped to the buffer length) is not modelled. *)
Definition setParameters (newParams : Parameters) (freqOffset : Q) (cf : CombFilter)
    : CombFilter :=
  let p := mkParams (freq newParams) (wet newParams)
             (Math.clamp (feedback newParams) 0 1) (interpType newParams) in
  mkComb (setDelayTime (1 / (freq p + freqOffset)) (3 # 100) (delay cf)) p.

(** [getDelay]: the read dispatched on the interpolation type. *)
Definition getDelay (cf : CombFilter) : Q * RingBuffer :=
  match interpType (parameters cf) with
  | noInterp => getFromBuffer noInterp (delay cf)
  | linearInterp => getFromBuffer linearInterp (delay cf)
  | cubicInterp => getFromBuffer cubicInterp (delay cf)
  | _ => getFromBuffer noInterp (delay cf)
  end.

(** [process (const float* input)]. *)
Definition process (input : Q) (cf : CombFilter) : Q * CombFilter :=
  let p := parameters cf in
  let (delayed, rb1) := getDelay cf in
  let feedbackLine := input + delayed * feedback p in
  let rb2 := pushToBuffer (Some feedbackLine) rb1 in
  (input + delayed * wet p, mkComb rb2 p).

End Comb.

(** ** [pa::dsp::Filter]: biquad lowpass and highpass *)
Module Biquad.

Inductive FilterType := lowpass | highpass.

Record Parameters := mkParams {
  type : FilterType;
  cutoff : Q;
  q : Q;
  enabled : bool
}.

(** [M_SQRT1_2] at its double value. *)
Definition M_SQRT1_2 : Q := 6369051672525773 # 9007199254740992.

Definition defaultParameters : Parameters := mkParams lowpass 500 M_SQRT1_2 true.

(** The anonymous coefficients struct [co]. *)
Record Coeffs := mkCoeffs {
  a0 : Q; a1 : Q; a2 : Q; b1 : Q; b2 : Q; dly1 : Q; dly2 : Q;
  k : Q; k2 : Q; n : Q;
  prevQ : Q; prevCutoff : Q; prevSampleRate : Q
}.

Definition initCoeffs : Coeffs := mkCoeffs 1 0 0 0 0 0 0 0 0 0 0 0 0.

Record Filter := mkFilter {
  parameters : Parameters;
  sampleRate : Z;
  co : Coeffs
}.

Definition init : Filter := mkFilter defaultParameters 0 initCoeffs.

Definition set_k (c : Coeffs) (k' k2' pc ps : Q) : Coeffs :=
  mkCoeffs (a0 c) (a1 c) (a2 c) (b1 c) (b2 c) (dly1 c) (dly2 c)
           k' k2' (n c) (prevQ c) pc ps.

Definition set_n (c : Coeffs) (n' pq : Q) : Coeffs :=
  mkCoeffs (a0 c) (a1 c) (a2 c) (b1 c) (b2 c) (dly1 c) (dly2 c)
           (k c) (k2 c) n' pq (prevCutoff c) (prevSampleRate c).

Definition set_ab (c : Coeffs) (a0' a1' a2' b1' b2' : Q) : Coeffs :=
  mkCoeffs a0' a1' a2' b1' b2' (dly1 c) (dly2 c)
           (k c) (k2 c) (n c) (prevQ c) (prevCutoff c) (prevSampleRate c).

Definition set_dly (c : Coeffs) (d1 d2 : Q) : Coeffs :=
  mkCoeffs (a0 c) (a1 c) (a2 c) (b1 c) (b2 c) d1 d2
           (k c) (k2 c) (n c) (prevQ c) (prevCutoff c) (prevSampleRate c).

(** [prepare (uint newSampleRate)]. *)
Definition prepare (newSampleRate : Z) (f : Filter) : Filter :=
  mkFilter (parameters f) newSampleRate (co f).

(** [setCoefficients]; the [jassert (sampleRate > 0)] is a debug-build check
    only and does not change the computation. *)
Definition setCoefficients (f : Filter) : DZ Filter :=
  let p := parameters f in
  let sr := inject_Z (sampleRate f) in
  let/d c1 :=
    if negb (Qeq_bool (cutoff p) (prevCutoff (co f))) || negb (Qeq_bool sr (prevSampleRate (co f)))
    then
      let/d x := qdiv (cutoff p) sr in
      let/d k' := Math.FastTan (Math.M_PI * x) in
      dz_ret (set_k (co f) k' (k' * k') (cutoff p) sr)
    else dz_ret (co f) in
  let/d c2 :=
    if negb (Qeq_bool (q p) (prevQ c1)) then
      let/d kq := qdiv (k c1) (q p) in
      let/d n' := qdiv 1 (1 + kq + k2 c1) in
      dz_ret (set_n c1 n' (q p))
    else dz_ret c1 in
  let/d kq := qdiv (k c2) (q p) in
  let c3 :=
    match type p with
    | lowpass =>
        let a0' := k2 c2 * n c2 in
        set_ab c2 a0' (2 * a0') a0' (2 * (k2 c2 - 1) * n c2) ((1 - kq + k2 c2) * n c2)
    | highpass =>
        let a0' := n c2 in
        set_ab c2 a0' (-2 * a0') a0' (2 * (k2 c2 - 1) * n c2) ((1 - kq + k2 c2) * n c2)
    end in
  dz_ret (mkFilter p (sampleRate f) c3).

(** [setParameters (newParameters)]. *)
Definition setParameters (newParameters : Parameters) (f : Filter) : DZ Filter :=
  let f1 := mkFilter newParameters (sampleRate f) (co f) in
  if negb (enabled newParameters) then dz_ret f1 else setCoefficients f1.

(** [process (const float* input)]; [None] as input is a null pointer, and
    [None] as result is the dereference of that null pointer. *)
Definition process (input : option Q) (f : Filter) : option (Q * Filter) :=
  let p := parameters f in
  if negb (enabled p) then
    match input with Some x => Some (x, f) | None => None end
  else
    match input with
    | None => None
    | Some x =>
        let c := co f in
        let out := x * a0 c + dly1 c in
        let d1 := x * a1 c + dly2 c - b1 c * out in
        let d2 := x * a2 c - b2 c * out in
        Some (out, mkFilter p (sampleRate f) (set_dly c d1 d2))
    end.

End Biquad.

(** ** [pa::dsp::Reverb] *)
Module Reverb.
Import Smooth Ring.

Record Parameters := mkParams {
  damping : Q; size : Q; mix : Q; width : Q; spread : Q;
  numEarlyCombs : Z; numLateCombs : Z
}.

Definition defaultParameters : Parameters := mkParams 0 0 0 0 0 8 4.

(** *** The nested [Reverb::Comb] *)
Record Comb := mkComb {
  cbuffer : RingBuffer;
  previousValue : Q
}.

(** [Comb::clear]. *)
Definition comb_clear (c : Comb) : Comb := mkComb (Ring.clear (cbuffer c)) 0.

(** [Comb::prepare]. *)
Definition comb_prepare (newSampleRate : Z) (c : Comb) : Comb :=
  comb_clear (mkComb (prepare_seconds (1 # 10) newSampleRate (cbuffer c)) (previousValue c)).

(** [Comb()]. *)
Definition comb_init : Comb := comb_prepare 44100 (mkComb Ring.init 0).

(** [Comb::SetTime]. *)
Definition SetTime (delayTimeInSeconds : Q) (c : Comb) : Comb :=
  mkComb (setDelayTime (Math.clamp delayTimeInSeconds (1 # 1000) 1) defaultSmoothTime
            (cbuffer c))
         (previousValue c).

(** [Comb::processEarly]. *)
Definition processEarly (input damp feed : Q) (c : Comb) : Q * Comb :=
  let (delayLine, rb1) := getFromBuffer noInterp (cbuffer c) in
  let prev := delayLine + damp * (previousValue c - delayLine) in
  let temp := input + prev * feed in
  (delayLine, mkComb (pushToBuffer (Some temp) rb1) prev).

(** [Comb::processLate]. *)
Definition processLate (input : Q) (c : Comb) : Q * Comb :=
  let (delayLine, rb1) := getFromBuffer noInterp (cbuffer c) in
  let temp := input + delayLine * (1 # 2) in
  (delayLine - input, mkComb (pushToBuffer (Some temp) rb1) (previousValue c)).

(** *** The reverb *)
Record Reverb := mkReverb {
  sampleRate : Z;
  preGain : Q; wet : Q; dry : Q;
  dampingSmooth : Smoothed; feedbackSmooth : Smoothed;
  wet1 : Smoothed; wet2 : Smoothed; drySmooth : Smoothed;
  parameters : Parameters;
  (** [combs[channel][instance]] *)
  earlyCombs : list (list Comb);
  lateCombs : list (list Comb);
  earlyCombTimes : list Q;
  lateCombTimes : list Q
}.

Definition wetGainScale : Q := 12 # 10.

Definition with_combs (rv : Reverb) (e l : list (list Comb)) : Reverb :=
  mkReverb (sampleRate rv) (preGain rv) (wet rv) (dry rv)
    (dampingSmooth rv) (feedbackSmooth rv) (wet1 rv) (wet2 rv) (drySmooth rv)
    (parameters rv) e l (earlyCombTimes rv) (lateCombTimes rv).

(** Every comb of a channel gets its time plus the channel's spread; the
    loops run over the 8 (resp. 4) combs and times of each channel. *)
Fixpoint setBankTimes (bank : list Comb) (times : list Q) (spread : Q) : list Comb :=
  match bank, times with
  | c :: bank', t :: times' => SetTime (t + spread) c :: setBankTimes bank' times' spread
  | _, _ => bank
  end.

(** [setCombs]. *)
Definition setCombs (rv : Reverb) : Reverb :=
  let spreadAmount := Math.clamp (spread (parameters rv)) 0 (1 # 100) / 2 in
  let chSpread (ch : nat) := if Nat.eqb ch 0 then spreadAmount else - spreadAmount in
  let e := List.map (fun '(ch, bank) => setBankTimes bank (earlyCombTimes rv) (chSpread ch))
             (combine (seq 0 (length (earlyCombs rv))) (earlyCombs rv)) in
  let l := List.map (fun '(ch, bank) => setBankTimes bank (lateCombTimes rv) (chSpread ch))
             (combine (seq 0 (length (lateCombs rv))) (lateCombs rv)) in
  with_combs rv e l.

(** [prepareCombs]. *)
Definition prepareCombs (rv : Reverb) : Reverb :=
  with_combs rv (List.map (List.map (comb_prepare (sampleRate rv))) (earlyCombs rv))
                (List.map (List.map (comb_prepare (sampleRate rv))) (lateCombs rv)).

(** [clear]. *)
Definition clear (rv : Reverb) : Reverb :=
  with_combs rv (List.map (List.map comb_clear) (earlyCombs rv))
                (List.map (List.map comb_clear) (lateCombs rv)).

(** [prepare (uint newSampleRate)]. *)
Definition prepare (newSampleRate : Z) (rv : Reverb) : Reverb :=
  let sr := if negb (newSampleRate =? sampleRate rv)%Z && negb (newSampleRate =? 0)%Z
            then newSampleRate else sampleRate rv in
  let rv1 := prepareCombs
    (mkReverb sr (preGain rv) (wet rv) (dry rv)
       (dampingSmooth rv) (feedbackSmooth rv) (wet1 rv) (wet2 rv) (drySmooth rv)
       (parameters rv) (earlyCombs rv) (lateCombs rv) (earlyCombTimes rv) (lateCombTimes rv)) in
  let ramp := 5 # 100 in
  clear (mkReverb sr (preGain rv1) (wet rv1) (dry rv1)
    (reset (dampingSmooth rv1) sr ramp) (reset (feedbackSmooth rv1) sr ramp)
    (reset (wet1 rv1) sr ramp) (reset (wet2 rv1) sr ramp) (reset (drySmooth rv1) sr ramp)
    (parameters rv1) (earlyCombs rv1) (lateCombs rv1) (earlyCombTimes rv1) (lateCombTimes rv1)).

(** [Reverb()]. *)
Definition init : Reverb :=
  let rv0 := mkReverb 44100 0 0 0
    (Smooth.init 0) (Smooth.init 0) (Smooth.init 0) (Smooth.init 0) (Smooth.init 0)
    defaultParameters
    [repeat comb_init 8; repeat comb_init 8]
    [repeat comb_init 4; repeat comb_init 4]
    [6 # 100; 4 # 100; 2 # 100; 1 # 100; 52 # 1000; 36 # 1000; 42 # 1000; 24 # 1000]
    [11 # 1000; 54 # 1000; 33 # 1000; 23 # 1000] in
  prepare 44100 (setCombs rv0).

(** [setMixValues]. *)
Definition setMixValues (rv : Reverb) : Reverb :=
  let mixAmount := Math.clamp (mix (parameters rv)) 0 1 in
  mkReverb (sampleRate rv) (preGain rv)
    (Math.ExpRounder mixAmount (8 # 10) * (155 # 100)) (1 - mixAmount)
    (dampingSmooth rv) (feedbackSmooth rv) (wet1 rv) (wet2 rv) (drySmooth rv)
    (parameters rv) (earlyCombs rv) (lateCombs rv) (earlyCombTimes rv) (lateCombTimes rv).

(** [setDamping]. *)
Definition setDamping (rv : Reverb) : Reverb :=
  let p := parameters rv in
  mkReverb (sampleRate rv) (preGain rv) (wet rv) (dry rv)
    (setTargetValue (dampingSmooth rv) (damping p * (9 # 10)))
    (setTargetValue (feedbackSmooth rv) (size p * (78 # 100) + (2 # 10)))
    (wet1 rv) (wet2 rv) (drySmooth rv)
    p (earlyCombs rv) (lateCombs rv) (earlyCombTimes rv) (lateCombTimes rv).

(** [setParameters (newParameters)]; with no combs at all the float code
    computes [0.1f / 0] (infinity), the rational model [0]. *)
Definition setParameters (newParameters : Parameters) (rv : Reverb) : Reverb :=
  let old := parameters rv in
  let rv1 :=
    mkReverb (sampleRate rv) (preGain rv) (wet rv) (dry rv)
      (dampingSmooth rv) (feedbackSmooth rv) (wet1 rv) (wet2 rv) (drySmooth rv)
      newParameters (earlyCombs rv) (lateCombs rv) (earlyCombTimes rv) (lateCombTimes rv) in
  let rv2 := if negb (Qeq_bool (mix newParameters) (mix old)) then setMixValues rv1 else rv1 in
  let p := newParameters in
  let rv3 :=
    mkReverb (sampleRate rv2)
      ((1 # 10) / inject_Z (u32 (numEarlyCombs p + numLateCombs p))) (wet rv2) (dry rv2)
      (dampingSmooth rv2) (feedbackSmooth rv2)
      (setTargetValue (wet1 rv2) (wetGainScale * wet rv2 * (1 + width p)))
      (setTargetValue (wet2 rv2) (wetGainScale * wet rv2 * (1 - width p)))
      (setTargetValue (drySmooth rv2) (dry rv2))
      p (earlyCombs rv2) (lateCombs rv2) (earlyCombTimes rv2) (lateCombTimes rv2) in
  let rv4 := if negb (Qeq_bool (spread p) (spread old)) then setCombs rv3 else rv3 in
  if negb (Qeq_bool (damping p) (damping old)) || negb (Qeq_bool (size p) (size old))
  then setDamping rv4 else rv4.

(** [setEarlyCombTime] and [setLateCombTime]. *)
Definition setEarlyCombTime (newDelayTime : Q) (combIndex : Z) (rv : Reverb) : Reverb :=
  setCombs (mkReverb (sampleRate rv) (preGain rv) (wet rv) (dry rv)
    (dampingSmooth rv) (feedbackSmooth rv) (wet1 rv) (wet2 rv) (drySmooth rv)
    (parameters rv) (earlyCombs rv) (lateCombs rv)
    (list_set (earlyCombTimes rv) (Z.to_nat (clampZ combIndex 0 7)) newDelayTime)
    (lateCombTimes rv)).

Definition setLateCombTime (newDelayTime : Q) (combIndex : Z) (rv : Reverb) : Reverb :=
  setCombs (mkReverb (sampleRate rv) (preGain rv) (wet rv) (dry rv)
    (dampingSmooth rv) (feedbackSmooth rv) (wet1 rv) (wet2 rv) (drySmooth rv)
    (parameters rv) (earlyCombs rv) (lateCombs rv) (earlyCombTimes rv)
    (list_set (lateCombTimes rv) (Z.to_nat (clampZ combIndex 0 3)) newDelayTime)).

(** The parallel loop over the early combs of both channels, iteration [j]
    onwards, [fuel] iterations left. *)
Fixpoint earlyLoop (fuel j : nat) (input damp feed : Q) (e0 e1 : list Comb) (outL outR : Q)
    : option (Q * Q * list Comb * list Comb) :=
  match fuel with
  | O => Some (outL, outR, e0, e1)
  | S fuel' =>
      let/o c0 := nth_error e0 j in
      let (o0, c0') := processEarly input damp feed c0 in
      let/o c1 := nth_error e1 j in
      let (o1, c1') := processEarly input damp feed c1 in
      earlyLoop fuel' (S j) input damp feed (list_set e0 j c0') (list_set e1 j c1')
        (outL + o0) (outR + o1)
  end.

(** The serial loop over the late combs of both channels. *)
Fixpoint lateLoop (fuel j : nat) (l0 l1 : list Comb) (outL outR : Q)
    : option (Q * Q * list Comb * list Comb) :=
  match fuel with
  | O => Some (outL, outR, l0, l1)
  | S fuel' =>
      let/o c0 := nth_error l0 j in
      let (o0, c0') := processLate outL c0 in
      let/o c1 := nth_error l1 j in
      let (o1, c1') := processLate outR c1 in
      lateLoop fuel' (S j) (list_set l0 j c0') (list_set l1 j c1') o0 o1
  end.

(** [process (float* left, float* right)] on non-null pointers: the new
    values of [*left] and [*right]. *)
Definition process (left right : Q) (rv : Reverb) : option (Q * Q * Reverb) :=
  let p := parameters rv in
  let input := (left + right) * preGain rv in
  let (damp, ds) := getNextValue (dampingSmooth rv) in
  let (feed, fs) := getNextValue (feedbackSmooth rv) in
  let/o e0 := nth_error (earlyCombs rv) 0 in
  let/o e1 := nth_error (earlyCombs rv) 1 in
  let/o (outL, outR, e0', e1') :=
    earlyLoop (Z.to_nat (numEarlyCombs p)) 0 input damp feed e0 e1 0 0 in
  let/o l0 := nth_error (lateCombs rv) 0 in
  let/o l1 := nth_error (lateCombs rv) 1 in
  let/o (outL', outR', l0', l1') :=
    lateLoop (Z.to_nat (numLateCombs p)) 0 l0 l1 outL outR in
  let (d, dS) := getNextValue (drySmooth rv) in
  let (w1, w1S) := getNextValue (wet1 rv) in
  let (w2, w2S) := getNextValue (wet2 rv) in
  Some (d * left + w1 * outL' + w2 * outR',
        d * right + w1 * outR' + w2 * outL',
        mkReverb (sampleRate rv) (preGain rv) (wet rv) (dry rv) ds fs w1S w2S dS p
          (list_set (list_set (earlyCombs rv) 0 e0') 1 e1')
          (list_set (list_set (lateCombs rv) 0 l0') 1 l1')
          (earlyCombTimes rv) (lateCombTimes rv)).

End Reverb.

(** ** [RiserProcessor]: the signal chain *)
Module Riser.

Record RiserProcessor := mkRiser {
  masterAmount : Q; reverbAmount : Q; filterAmount : Q; flangerAmount : Q;
  (** [array<CombFilter, 2>] and [array<Filter, 2>] *)
  flanger : Comb.CombFilter * Comb.CombFilter;
  lowpass : Biquad.Filter * Biquad.Filter;
  highpass : Biquad.Filter * Biquad.Filter;
  reverb : Reverb.Reverb;
  flangerParams : Comb.Parameters;
  lowpassParams : Biquad.Parameters;
  highpassParams : Biquad.Parameters;
  reverbParams : Reverb.Parameters
}.

(** The comb times the constructor installs, one pair of calls per index. *)
Definition earlyTimes : list Q :=
  [53 # 10000; 134 # 10000; 229 # 10000; 30 # 1000; 92 # 10000; 158 # 10000;
   397 # 10000; 184 # 10000].
Definition lateTimes : list Q := [111 # 10000; 175 # 10000; 76 # 10000; 152 # 10000].

Fixpoint installTimes (fuel i : nat) (rv : Reverb.Reverb) : Reverb.Reverb :=
  match fuel with
  | O => rv
  | S fuel' =>
      let rv1 := Reverb.setEarlyCombTime (nth i earlyTimes 0) (Z.of_nat i) rv in
      let rv2 := if Nat.ltb i 4 then Reverb.setLateCombTime (nth i lateTimes 0) (Z.of_nat i) rv1
                 else rv1 in
      installTimes fuel' (S i) rv2
  end.

(** [RiserProcessor()]. *)
Definition init : RiserProcessor :=
  mkRiser 0 (65 # 100) 1 (7 # 10)
    (Comb.init, Comb.init) (Biquad.init, Biquad.init) (Biquad.init, Biquad.init)
    (installTimes 8 0 Reverb.init)
    (Comb.mkParams 3000 0 (5 # 10) linearInterp)
    (Biquad.mkParams Biquad.lowpass 20000 (5 # 10) true)
    (Biquad.mkParams Biquad.highpass 10 Biquad.M_SQRT1_2 true)
    (Reverb.mkParams (6 # 10) (2 # 10) 0 1 (65 # 10) 8 4).

Definition ceil : Q := 12 # 10.

(** One iteration of the process loop on the sample pair [(inL, inR)]. *)
Definition processSample (inL inR : Q) (st : RiserProcessor) : option (Q * Q * RiserProcessor) :=
  let (outL, fl0) := Comb.process inL (fst (flanger st)) in
  let (outR, fl1) := Comb.process inR (snd (flanger st)) in
  let/o (outL, lp0) := Biquad.process (Some outL) (fst (lowpass st)) in
  let/o (outR, lp1) := Biquad.process (Some outR) (snd (lowpass st)) in
  let/o (outL, hp0) := Biquad.process (Some outL) (fst (highpass st)) in
  let/o (outR, hp1) := Biquad.process (Some outR) (snd (highpass st)) in
  let/o (outL, outR, rv) := Reverb.process outL outR (reverb st) in
  let outL := Math.clamp outL (- ceil) ceil in
  let outR := Math.clamp outR (- ceil) ceil in
  Some (outL, outR,
        mkRiser (masterAmount st) (reverbAmount st) (filterAmount st) (flangerAmount st)
          (fl0, fl1) (lp0, lp1) (hp0, hp1) rv
          (flangerParams st) (lowpassParams st) (highpassParams st) (reverbParams st)).

(** The loop [for (int i = 0; i < numSamples; i++)], from index [i], [fuel]
    iterations left; reading past the end of an array is a fault. *)
Fixpoint processLoop (fuel i : nat) (left right : list Q) (st : RiserProcessor)
    : option (list Q * list Q * RiserProcessor) :=
  match fuel with
  | O => Some (left, right, st)
  | S fuel' =>
      let/o inL := nth_error left i in
      let/o inR := nth_error right i in
      let/o (outL, outR, st1) := processSample inL inR st in
      processLoop fuel' (S i) (list_set left i outL) (list_set right i outR) st1
  end.

(** [process (float* left, float* right, int numSamples)] on non-null
    arrays: the arrays after the call. *)
Definition process (left right : list Q) (numSamples : Z) (st : RiserProcessor)
    : option (list Q * list Q * RiserProcessor) :=
  if (numSamples <=? 0)%Z then Some (left, right, st)
  else processLoop (Z.to_nat numSamples) 0 left right st.

(** [mapValue]. *)
Definition mapValue (val min max : Q) : Q := Math.map val 0 1 min max.

(** [static_cast<float>(M_SQRT1_2)]. *)
Definition M_SQRT1_2f : Q := 11863283 # 16777216.

(** [calculateValues]; the source calls [pa::math::expRounder], which is
    [pa::math::ExpRounder]. The filters' division flags are collected. *)
Definition calculateValues (st : RiserProcessor) : DZ RiserProcessor :=
  let flA := flangerAmount st in
  let fiA := filterAmount st in
  let rA := reverbAmount st in
  let fp0 := flangerParams st in
  let fp := Comb.mkParams (mapValue flA 20 280)
              (mapValue (Math.ExpRounder flA (3 # 10)) 0 (75 # 100))
              (mapValue flA 0 (55 # 100)) (Comb.interpType fp0) in
  let lp0 := lowpassParams st in
  let lpp := Biquad.mkParams (Biquad.type lp0)
               (mapValue (Math.ExpRounder fiA (3 # 10)) 20000 4000)
               (mapValue (Math.ExpRounder fiA (-6 # 10)) (5 # 10) (85 # 100))
               (Biquad.enabled lp0) in
  let hp0 := highpassParams st in
  let hpp := Biquad.mkParams (Biquad.type hp0)
               (mapValue (Math.ExpRounder fiA (-3 # 10)) 10 200)
               (mapValue (Math.ExpRounder fiA (-5 # 10)) M_SQRT1_2f 1)
               (Biquad.enabled hp0) in
  let rp0 := reverbParams st in
  let rp := Reverb.mkParams (Reverb.damping rp0)
              (mapValue rA (1 # 100) (45 # 100))
              (mapValue rA 0 (75 # 100))
              (mapValue rA 1 (6 # 10))
              (mapValue (Math.ExpRounder rA (3 # 10)) (5 # 10) (15 # 10))
              (Reverb.numEarlyCombs rp0) (Reverb.numLateCombs rp0) in
  let fl0 := Comb.setParameters fp 0 (fst (flanger st)) in
  let fl1 := Comb.setParameters fp (7 * Math.ExpRounder flA (-4 # 10)) (snd (flanger st)) in
  let/d lpA := Biquad.setParameters lpp (fst (lowpass st)) in
  let/d hpA := Biquad.setParameters hpp (fst (highpass st)) in
  let/d lpB := Biquad.setParameters lpp (snd (lowpass st)) in
  let/d hpB := Biquad.setParameters hpp (snd (highpass st)) in
  let rv := Reverb.setParameters rp (reverb st) in
  dz_ret (mkRiser (masterAmount st) rA fiA flA (fl0, fl1) (lpA, lpB) (hpA, hpB) rv
            fp lpp hpp rp).

(** [setParameters (newDoublerAmount, newFilterAmount, newReverbAmount,
    newMasterAmount)]. *)
Definition setParameters (newDoublerAmount newFilterAmount newReverbAmount newMasterAmount : Q)
    (st : RiserProcessor) : DZ RiserProcessor :=
  let rA := Math.clamp newReverbAmount 0 1 in
  let fiA := Math.clamp newFilterAmount 0 1 in
  let flA := Math.clamp newDoublerAmount 0 1 in
  let mA := Math.clamp newMasterAmount 0 1 in
  calculateValues
    (mkRiser mA (rA * mA) (fiA * mA) (flA * mA)
       (flanger st) (lowpass st) (highpass st) (reverb st)
       (flangerParams st) (lowpassParams st) (highpassParams st) (reverbParams st)).

(** [prepare (uint sampleRate)]. *)
Definition prepare (sampleRate : Z) (st : RiserProcessor) : DZ RiserProcessor :=
  let rv := Reverb.prepare sampleRate (reverb st) in
  let fl := (Comb.prepare sampleRate (fst (flanger st)),
             Comb.prepare sampleRate (snd (flanger st))) in
  let lp := (Biquad.prepare sampleRate (fst (lowpass st)),
             Biquad.prepare sampleRate (snd (lowpass st))) in
  let hp := (Biquad.prepare sampleRate (fst (highpass st)),
             Biquad.prepare sampleRate (snd (highpass st))) in
  calculateValues
    (mkRiser (masterAmount st) (reverbAmount st) (filterAmount st) (flangerAmount st)
       fl lp hp rv
       (flangerParams st) (lowpassParams st) (highpassParams st) (reverbParams st)).

End Riser.

(** ** Floating-point special values, for the final clamp of [process] *)
Module Flt.

(** A [float] or [double] value: a finite value (its exact rational),
    an infinity, or NaN. *)
Inductive float := Fin (q : Q) | PInf | NInf | NaN.

(** [a < b]: false whenever an operand is NaN. *)
Definition lt (a b : float) : bool :=
  match a, b with
  | Fin x, Fin y => Qltb x y
  | NInf, Fin _ | NInf, PInf | Fin _, PInf => true
  | _, _ => false
  end.

(** [pa::math::setClamp (&val, min, max)]:
    [*val = ( *val < min) ? min : ( *val > max) ? max : *val]. *)
Definition setClamp (val min max : float) : float :=
  if lt val min then min else if lt max val then max else val.

Definition neg_inf (a : float) : float :=
  match a with PInf => NInf | NInf => PInf | _ => a end.

Section Arith.
(** Rounding of an exact finite result to the format at hand, which may
    overflow to an infinity: [rnd32] for [float], [rnd64] for [double]. *)
Variables rnd32 rnd64 : Q -> float.

Definition add_with (rnd : Q -> float) (a b : float) : float :=
  match a, b with
  | NaN, _ | _, NaN => NaN
  | PInf, NInf | NInf, PInf => NaN
  | PInf, _ | _, PInf => PInf
  | NInf, _ | _, NInf => NInf
  | Fin x, Fin y => rnd (x + y)
  end.

Definition mul_with (rnd : Q -> float) (a b : float) : float :=
  match a, b with
  | NaN, _ | _, NaN => NaN
  | Fin x, Fin y => rnd (x * y)
  | Fin x, i | i, Fin x =>
      if Qeq_bool x 0 then NaN else if Qltb x 0 then neg_inf i else i
  | PInf, PInf | NInf, NInf => PInf
  | _, _ => NInf
  end.

(** [static_cast<float>] of a [double]. *)
Definition toFloat (a : float) : float :=
  match a with Fin x => rnd32 x | _ => a end.

(** [CombFilter::process]: [*input + delayed * p.wet]. *)
Definition comb_out (input delayed wet : float) : float :=
  add_with rnd32 input (mul_with rnd32 delayed wet).

(** [Filter::process]: the input when disabled, else
    [static_cast<float>( *input * co.a0 + co.dly1)] computed in [double]. *)
Definition biquad_out (enabled : bool) (input a0 dly1 : float) : float :=
  if enabled then toFloat (add_with rnd64 (mul_with rnd64 input a0) dly1) else input.

(** [Reverb::process]: [*left = d * ( *left) + w1 * outL + w2 * outR]. *)
Definition reverb_out (left d w1 w2 outL outR : float) : float :=
  add_with rnd32 (add_with rnd32 (mul_with rnd32 d left) (mul_with rnd32 w1 outL))
    (mul_with rnd32 w2 outR).

(** The value [RiserProcessor::process] writes to [left[i]] from the input
    [left[i]], given the values the state supplies: the flanger's delayed
    sample and wet gain, each filter's enable flag, [a0] and [dly1], the
    reverb's gains and comb sums; then [setClamp (&outL, -ceil, ceil)]. *)
Definition sample_out (x : float) (delayed wet : float)
    (en_lp : bool) (a0_lp dly1_lp : float) (en_hp : bool) (a0_hp dly1_hp : float)
    (d w1 w2 outL outR : float) : float :=
  let o := comb_out x delayed wet in
  let o := biquad_out en_lp o a0_lp dly1_lp in
  let o := biquad_out en_hp o a0_hp dly1_hp in
  let o := reverb_out o d w1 w2 outL outR in
  setClamp o (Fin (- Riser.ceil)) (Fin Riser.ceil).

End Arith.

End Flt.

(** ** Driving sequences *)
Module Drive.
Import Ring.

(** Pushing the samples [s] one after the other. *)
Fixpoint pushAll (s : list Q) (rb : RingBuffer) : RingBuffer :=
  match s with
  | [] => rb
  | x :: t => pushAll t (pushToBuffer (Some x) rb)
  end.

(** [j] reads in a row, each advancing the smoothed delay time. *)
Fixpoint readN (j : nat) (interp : InterpolationType) (rb : RingBuffer) : RingBuffer :=
  match j with
  | O => rb
  | S j' => readN j' interp (snd (getFromBuffer interp rb))
  end.

(** A buffer of [N] samples at rate [R] filled with [s] from construction. *)
Definition filled (N R : Z) (s : list Q) : RingBuffer := pushAll s (prepare N R init).

(** The filled buffer after [setDelayTime (t, smoothTime)]. *)
Definition delayed (N R : Z) (t : Q) (s : list Q) (smoothTime : Q) : RingBuffer :=
  setDelayTime t smoothTime (filled N R s).

(** The samples [0, 1, ..., n-1]. *)
Definition ramp (n : nat) : list Q := List.map (fun i => inject_Z (Z.of_nat i)) (seq 0 n).

(** A biquad prepared at [sr] and given [p1], then [p2]. *)
Definition biquad2 (sr : Z) (p1 p2 : Biquad.Parameters) : Biquad.Filter :=
  fst (Biquad.setParameters p2 (fst (Biquad.setParameters p1 (Biquad.prepare sr Biquad.init)))).

(** The value [setCoefficients] gives [co.k] for a cutoff at a sample rate. *)
Definition kOf (cutoff : Q) (sr : Z) : Q :=
  fst (Math.FastTan (Math.M_PI * (cutoff / inject_Z sr))).

(** The DC gain [(a0 + a1 + a2) / (1 + b1 + b2)] of the current coefficients. *)
Definition dcGain (f : Biquad.Filter) : Q :=
  let c := Biquad.co f in
  (Biquad.a0 c + Biquad.a1 c + Biquad.a2 c) / (1 + Biquad.b1 c + Biquad.b2 c).

(** The operations of a ring buffer. *)
Inductive op :=
  | OpPrepare (n r : Z)
  | OpPrepareSeconds (secs : Q) (r : Z)
  | OpClear
  | OpSetDelayTime (t smoothTime : Q)
  | OpPush (input : option Q)
  | OpGetAndPush (input : option Q)
  | OpForceIncrement
  | OpRead (interp : InterpolationType).

Definition apply_op (o : op) (rb : RingBuffer) : RingBuffer :=
  match o with
  | OpPrepare n r => prepare n r rb
  | OpPrepareSeconds secs r => prepare_seconds secs r rb
  | OpClear => clear rb
  | OpSetDelayTime t st => setDelayTime t st rb
  | OpPush x => pushToBuffer x rb
  | OpGetAndPush x => snd (getAndPush x rb)
  | OpForceIncrement => forceIncrementWritePointer rb
  | OpRead i => snd (getFromBuffer i rb)
  end.

End Drive.

(** * Properties *)

(** ** Reverb bypass *)

(** C1 (code bug). A freshly constructed reverb whose parameters are set with
    [mix = 0] does not pass its input through: [setParameters] calls
    [setMixValues] only when [mix] differs from the stored value, which is
    already [0], so [dry] keeps its initial value [0]; with the smoothed
    gains settled, [process (1, 1)] yields [(0, 0)]. *)
Theorem reverb_mix0_fresh_mutes :
  let rv := Reverb.setParameters Reverb.defaultParameters Reverb.init in
  Reverb.mix (Reverb.parameters rv) == 0 /\
  Smooth.sv_countdown (Reverb.drySmooth rv) = 0%Z /\
  Smooth.sv_countdown (Reverb.wet1 rv) = 0%Z /\
  Smooth.sv_countdown (Reverb.wet2 rv) = 0%Z /\
  Reverb.dry rv == 0 /\
  match Reverb.process 1 1 rv with
  | Some (l, r, _) => l == 0 /\ r == 0
  | None => False
  end.
Proof. vm_compute. repeat split; reflexivity. Qed.

(** ** Biquad pass-through *)

(** C2 (code bug). [Filter::process] on a null input pointer evaluates
    [*input], a null dereference (the result [None]); only the disabled case
    with a valid pointer is the pass-through that leaves the state alone. *)
Theorem filter_process_null_derefs :
  (forall f, Biquad.process None f = None) /\
  (forall t c q sr co x,
     let f := Biquad.mkFilter (Biquad.mkParams t c q false) sr co in
     Biquad.process (Some x) f = Some (x, f)).
Proof.
  split.
  - intros f. unfold Biquad.process. destruct (Biquad.enabled (Biquad.parameters f)); reflexivity.
  - intros. reflexivity.
Qed.

(** ** Delay round trip *)

(** C3 (counterexample). Two reads that miss the sample written [k] steps
    earlier. (1) Right after [setDelayTime (6/20)] with the default
    smoothing time [0.1 s], a read of a buffer of 20 samples at 20 Hz filled
    with [0 .. 19] returns [17], not [14]: the read uses the first step of
    the delay-time ramp. (2) The delay time [13/22] reaches [setDelayTime]
    as the single-precision value nearest to it, [9913809 / 2^24] (a 24-bit
    significand, within half a unit in the last place of [13/22]), which is
    below [13/22]; with a buffer of 22 samples at 22 Hz filled with
    [0 .. 21] and no smoothing, [uint(22 * t)] is [12], not [13], and the
    read returns [10], not [9]. (The product rounded to single precision,
    [13 - 2^-20], truncates to [12] as well.) *)
Lemma delay_roundtrip_ramp_cex :
  (let rb := Drive.delayed 20 20 (6 # 20) (Drive.ramp 20) Ring.defaultSmoothTime in
   Ring.writeIndex rb = 0%Z /\
   fst (Ring.getFromBuffer noInterp rb) == 17 /\
   ~ (fst (Ring.getFromBuffer noInterp rb)
        == nth (Z.to_nat ((Ring.writeIndex rb - 6) mod 20)) (Drive.ramp 20) 0)) /\
  (let t := 9913809 # 16777216 in
   let rb := Drive.delayed 22 22 t (Drive.ramp 22) 0 in
   (2 ^ 23 <= 9913809 < 2 ^ 24)%Z /\ Qabs (t - (13 # 22)) < (1 # 33554432) /\ t < (13 # 22) /\
   Ring.writeIndex rb = 0%Z /\
   to_uint (22 * t) = 12%Z /\
   Qabs (22 * t - (13 - (1 # 1048576))) <= (1 # 2097152) /\
   to_uint (13 - (1 # 1048576)) = 12%Z /\
   fst (Ring.getFromBuffer noInterp rb) == 10 /\
   ~ (fst (Ring.getFromBuffer noInterp rb)
        == nth (Z.to_nat ((Ring.writeIndex rb - 13) mod 22)) (Drive.ramp 22) 0)).
Proof.
  split.
  - vm_compute. split; [reflexivity | split; [reflexivity | discriminate]].
  - vm_compute. repeat split; try reflexivity; discriminate.
Qed.

(** ** Zero sample rate *)

(** C4 (code bug). [RingBuffer::prepare] with sample rate [0] stores [1], but
    [Filter::prepare (0)] stores [0], and the next enabled [setParameters]
    computes [cutoff / sampleRate] with a zero divisor. *)
Theorem zero_rate_filter_divides :
  (forall n rb, Ring.sampleRate (Ring.prepare n 0 rb) = 1%Z) /\
  Biquad.sampleRate (Biquad.prepare 0 Biquad.init) = 0%Z /\
  snd (Biquad.setParameters Biquad.defaultParameters (Biquad.prepare 0 Biquad.init)) = true.
Proof.
  split; [|split; [reflexivity | vm_compute; reflexivity]].
  intros n rb. unfold Ring.prepare, Ring.clear, Ring.with_buffer. cbn [Ring.sampleRate].
  repeat match goal with
         | |- context [if ?b then _ else _] => destruct b eqn:?
         end; cbn [Ring.sampleRate] in *;
    rewrite ?Z.eqb_eq, ?Z.eqb_neq in *; lia.
Qed.

(** ** Linear interpolation at read index 0 *)

(** C6 (code bug). With [writeIndex = 0] and a read offset of [0.5], the read
    index is [0] and its neighbour index [readIndex - 1] wraps to [2^32 - 1];
    [operator[]] maps it to [data[size]], past the allocation, so the blend
    uses that cell (here [0]) instead of the last element [4]. *)
Theorem linear_read_at_zero_past_end :
  let rb := Ring.setDelayTime (1 # 2) 0 (Drive.filled 4 1 [1; 2; 3; 4]) in
  Heap.hb_data (Ring.buffer rb) = [1; 2; 3; 4] /\
  Ring.writeIndex rb = 0%Z /\
  Ring.getReadIndex 0 rb = 0%Z /\
  u32 (0 - 1) = 4294967295%Z /\
  fst (Ring.getFromBuffer linearInterp rb) == Math.LinearInterp 1 (Heap.hb_end (Ring.buffer rb)) (1 # 2) /\
  fst (Ring.getFromBuffer linearInterp rb) == 1 # 2 /\
  Math.LinearInterp 1 4 (1 # 2) == 5 # 2.
Proof. vm_compute. repeat split; reflexivity. Qed.

(** *** Lemmas on the ring buffer *)
Module RingFacts.
Import Heap Smooth Ring Drive.

Lemma Qltb_comp : forall a b c d, a == b -> c == d -> Qltb a c = Qltb b d.
Proof.
  intros a b c d Hab Hcd. unfold Qltb. f_equal.
  apply Bool.eq_true_iff_eq. rewrite !Qle_bool_iff, Hab, Hcd. reflexivity.
Qed.

Lemma Qtrunc_comp : forall a b, a == b -> Qtrunc a = Qtrunc b.
Proof.
  intros a b H. unfold Qtrunc. rewrite (Qltb_comp a b 0 0 H (Qeq_refl 0)).
  destruct (Qltb b 0).
  - f_equal. apply Qfloor_comp. rewrite H. reflexivity.
  - apply Qfloor_comp. exact H.
Qed.

Lemma Qtrunc_Z : forall z, (0 <= z)%Z -> Qtrunc (inject_Z z) = z.
Proof.
  intros z Hz. unfold Qtrunc, Qltb.
  replace (Qle_bool 0 (inject_Z z)) with true.
  - apply Qfloor_Z.
  - symmetry. apply Qle_bool_iff. change 0 with (inject_Z 0). rewrite <- Zle_Qle. exact Hz.
Qed.

Lemma u32_small : forall z, (0 <= z < UINT_MOD)%Z -> u32 z = z.
Proof. intros z Hz. unfold u32. apply Z.mod_small. exact Hz. Qed.

Lemma clampZ_in : forall v lo hi, (lo <= v <= hi)%Z -> clampZ v lo hi = v.
Proof.
  intros v lo hi H. unfold clampZ.
  destruct (v <? lo)%Z eqn:E1; [apply Z.ltb_lt in E1; lia|].
  destruct (hi <? v)%Z eqn:E2; [apply Z.ltb_lt in E2; lia|]. reflexivity.
Qed.

Lemma clamp_in : forall v lo hi, lo <= v -> v <= hi -> Math.clamp v lo hi = v.
Proof.
  intros v lo hi H1 H2. unfold Math.clamp, Qltb.
  replace (Qle_bool lo v) with true by (symmetry; apply Qle_bool_iff; exact H1).
  replace (Qle_bool v hi) with true by (symmetry; apply Qle_bool_iff; exact H2).
  reflexivity.
Qed.

(** A fresh buffer prepared with a size that passes both clamps. *)
Lemma prepare_init : forall N R,
  (0 < R)%Z -> (0 < N)%Z -> (N <= R * 600)%Z -> (R * 600 < UINT_MOD)%Z ->
  (N * R * 10 < UINT_MOD)%Z ->
  prepare N R init = mkRing (mkHeapBlock (repeat 0 (Z.to_nat N)) 0) N 0 R 0 (Smooth.init 0).
Proof.
  intros N R HR HN Hcap Hov2 Hov.
  unfold prepare, init, clear, with_buffer. cbn [size buffer writeIndex sampleRate
    delaySmoothTime delayTime].
  rewrite (u32_small (N * R * 10)) by nia.
  rewrite (clampZ_in N 0 (N * R * 10)) by nia.
  replace (N =? 0)%Z with false by (symmetry; apply Z.eqb_neq; lia).
  cbn [negb]. rewrite (u32_small (R * 600)) by lia.
  rewrite (clampZ_in N 0 (R * 600)) by lia.
  cbn [sampleRate].
  assert (Hsr : (if negb (R =? 44100)%Z then R else 44100%Z) = R).
  { destruct (R =? 44100)%Z eqn:E; [apply Z.eqb_eq in E; subst|]; reflexivity. }
  rewrite Hsr. replace (R =? 0)%Z with false by (symmetry; apply Z.eqb_neq; lia).
  unfold reallocate, initialise. cbn. rewrite firstn_nil, Nat.sub_0_r, app_nil_l, repeat_length. reflexivity.
Qed.

Lemma list_set_app : forall {A} (pre t : list A) r x,
  list_set (pre ++ r :: t) (length pre) x = pre ++ x :: t.
Proof. intros A pre. induction pre as [|h pre IH]; intros; simpl; [reflexivity|]. now rewrite IH. Qed.

(** Pushing [s] into the free slots [rest] from write index [length pre]. *)
Lemma pushAll_fill : forall s pre rest e sr dst dt,
  (length s <= length rest)%nat -> rest <> [] ->
  (Z.of_nat (length pre + length rest) < UINT_MOD)%Z ->
  pushAll s (mkRing (mkHeapBlock (pre ++ rest) e) (Z.of_nat (length pre + length rest))
                    (Z.of_nat (length pre)) sr dst dt)
  = mkRing (mkHeapBlock (pre ++ s ++ skipn (length s) rest) e)
           (Z.of_nat (length pre + length rest))
           (if Nat.eqb (length s) (length rest) then 0%Z else Z.of_nat (length pre + length s))
           sr dst dt.
Proof.
  induction s as [|x s IH]; intros pre rest e sr dst dt Hlen Hne Hov.
  - simpl. destruct (length rest) eqn:E; [destruct rest; [congruence | discriminate]|].
    rewrite Nat.add_0_r. reflexivity.
  - destruct rest as [|r rest]; [congruence|].
    simpl in Hlen, Hov.
    cbn [pushAll]. unfold pushToBuffer, with_buffer, incrementWritePointer, set, getSize.
    cbn [buffer hb_data hb_end writeIndex size sampleRate delaySmoothTime delayTime].
    rewrite length_app. cbn [length].
    replace (Z.of_nat (length pre + S (length rest)) <=? Z.of_nat (length pre))%Z with false
      by (symmetry; apply Z.leb_gt; lia).
    rewrite Nat2Z.id, list_set_app.
    rewrite (u32_small (Z.of_nat (length pre) + 1)) by lia.
    destruct rest as [|r' rest'].
    + destruct s; [|simpl in Hlen; lia].
      simpl. replace (Z.of_nat (length pre + 1) <=? Z.of_nat (length pre) + 1)%Z with true
        by (symmetry; apply Z.leb_le; lia).
      replace (Z.of_nat (length pre) + 1 - Z.of_nat (length pre + 1))%Z with 0%Z by lia.
      reflexivity.
    + replace (Z.of_nat (length pre + S (length (r' :: rest'))) <=? Z.of_nat (length pre) + 1)%Z
        with false by (symmetry; apply Z.leb_gt; simpl; lia).
      specialize (IH (pre ++ [x]) (r' :: rest') e sr dst dt).
      rewrite <- app_assoc in IH. cbn [app] in IH.
      rewrite length_app in IH. cbn [length] in IH |- *.
      replace (length pre + 1 + S (length rest'))%nat with (length pre + S (S (length rest')))%nat
        in IH by lia.
      replace (Z.of_nat (length pre + 1)) with (Z.of_nat (length pre) + 1)%Z in IH by lia.
      rewrite IH by (simpl in *; try lia; discriminate).
      rewrite <- app_assoc. cbn [app skipn Nat.eqb].
      replace (length pre + 1 + length s)%nat with (length pre + S (length s))%nat by lia.
      reflexivity.
Qed.

End RingFacts.

Module RingFacts2.
Import Heap Smooth Ring Drive RingFacts.

Lemma getNextValue_settled : forall s, (sv_countdown s <= 0)%Z -> getNextValue s = (sv_target s, s).
Proof. intros s H. unfold getNextValue. replace (sv_countdown s <=? 0)%Z with true by lia. reflexivity. Qed.

Lemma setTargetValue_target : forall s v, sv_target (setTargetValue s v) == v.
Proof.
  intros s v. unfold setTargetValue.
  destruct (Qeq_bool v (sv_target s)) eqn:E.
  - apply Qeq_bool_iff in E. rewrite E. reflexivity.
  - destruct (sv_stepsToTarget s <=? 0)%Z; reflexivity.
Qed.

(** A read without interpolation: the value at the read index of the next
    delay time, and only the smoother advanced. *)
Lemma getFromBuffer_noInterp_eq : forall rb,
  getFromBuffer noInterp rb =
  (get (buffer rb) (getReadIndex (to_uint (inject_Z (sampleRate rb) * fst (getNextValue (delayTime rb)))) rb),
   with_delayTime rb (snd (getNextValue (delayTime rb)))).
Proof. intros rb. cbn [getFromBuffer]. unfold getFromBufferNoInterp. destruct (getNextValue (delayTime rb)). reflexivity. Qed.

Lemma readN_settles : forall j rb, (sv_countdown (delayTime rb) <= Z.of_nat j)%Z ->
  buffer (readN j noInterp rb) = buffer rb /\ size (readN j noInterp rb) = size rb /\
  writeIndex (readN j noInterp rb) = writeIndex rb /\
  sampleRate (readN j noInterp rb) = sampleRate rb /\
  (sv_countdown (delayTime (readN j noInterp rb)) <= 0)%Z /\
  sv_target (delayTime (readN j noInterp rb)) = sv_target (delayTime rb).
Proof.
  induction j as [|j IH]; intros rb Hj.
  - cbn [readN]. repeat split; lia.
  - cbn [readN]. rewrite getFromBuffer_noInterp_eq. cbn [snd].
    set (dt := delayTime rb) in *.
    assert (Hc : (sv_countdown (snd (getNextValue dt)) <= Z.of_nat j)%Z /\
                 sv_target (snd (getNextValue dt)) = sv_target dt).
    { unfold getNextValue. destruct (sv_countdown dt <=? 0)%Z eqn:E.
      - apply Z.leb_le in E. split; [cbn; lia | reflexivity].
      - apply Z.leb_gt in E. destruct (0 <? sv_countdown dt - 1)%Z; cbn; split; lia || reflexivity. }
    destruct Hc as [Hc Ht].
    destruct (IH (with_delayTime rb (snd (getNextValue dt)))) as (H1 & H2 & H3 & H4 & H5 & H6);
      [exact Hc|].
    repeat split; [exact H1 | exact H2 | exact H3 | exact H4 | exact H5 | rewrite H6; exact Ht].
Qed.

Lemma setDelayTime_frame : forall d st rb,
  buffer (setDelayTime d st rb) = buffer rb /\ size (setDelayTime d st rb) = size rb /\
  writeIndex (setDelayTime d st rb) = writeIndex rb /\
  sampleRate (setDelayTime d st rb) = sampleRate rb /\
  sv_target (delayTime (setDelayTime d st rb))
    == Math.clamp (Qabs d) 0 (inject_Z (size rb) / inject_Z (sampleRate rb)).
Proof.
  intros d st rb. unfold setDelayTime, with_delayTime.
  destruct (negb (Qeq_bool st (delaySmoothTime rb))); cbn;
    (repeat split; [apply setTargetValue_target]).
Qed.

Lemma getReadIndex_fresh : forall k N rb, (0 <= k < N)%Z -> (N < UINT_MOD)%Z ->
  writeIndex rb = 0%Z -> size rb = N ->
  getReadIndex k rb = ((0 - k) mod N)%Z.
Proof.
  intros k N rb Hk HN Hw Hs. unfold getReadIndex. rewrite Hw, Hs.
  rewrite u32_small by lia.
  destruct (Z.eq_dec k 0) as [->|Hk0].
  - rewrite Z.mod_0_l by lia. replace (N <=? 0 - 0 + N)%Z with true by (symmetry; apply Z.leb_le; lia). lia.
  - replace (N <=? 0 - k + N)%Z with false by (symmetry; apply Z.leb_gt; lia).
    apply Z.mod_unique with (q := (-1)%Z); lia.
Qed.

End RingFacts2.

(** C3 (amended). A buffer prepared from construction with [N] samples at
    rate [R] (both clamps of [prepare] passing) and filled with [s[0..N)] has
    write index [0]; after [setDelayTime (t, smoothTime)] with a delay value
    [t] that makes [R * t] exactly the integer [k], [0 <= k < N] and
    [k < 2^24] (so the single-precision product is exact as well), once the
    smoothed delay time has reached its target (here: after [j] reads, [j]
    at least the ramp's remaining steps), a read without interpolation
    returns [s[(writeIndex - k) mod N]], the sample written [k] steps before
    the newest one counted from the oldest. *)
Theorem delay_roundtrip_settled (N R k : Z) (t : Q) (s : list Q) (smoothTime : Q) (j : nat)
  (HR : (0 < R)%Z) (Hk : (0 <= k < N)%Z) (Hk24 : (k < 2 ^ 24)%Z) (Ht : inject_Z R * t == inject_Z k)
  (Hs : length s = Z.to_nat N)
  (Hcap : (N <= R * 600)%Z) (Hov2 : (R * 600 < UINT_MOD)%Z)
  (Hov : (N * R * 10 < UINT_MOD)%Z)
  (Hj : (Smooth.sv_countdown (Ring.delayTime (Drive.delayed N R t s smoothTime)) <= Z.of_nat j)%Z) :
  Ring.writeIndex (Drive.filled N R s) = 0%Z /\
  fst (Ring.getFromBuffer noInterp (Drive.readN j noInterp (Drive.delayed N R t s smoothTime)))
    = nth (Z.to_nat ((Ring.writeIndex (Drive.filled N R s) - k) mod N)) s 0.
Proof.
  assert (Hfill : Drive.filled N R s
                  = Ring.mkRing (Heap.mkHeapBlock s 0) N 0 R 0 (Smooth.init 0)).
  { unfold Drive.filled. rewrite RingFacts.prepare_init by lia.
    pose proof (RingFacts.pushAll_fill s [] (repeat 0 (Z.to_nat N)) 0 R 0 (Smooth.init 0)) as P.
    cbn [app length Nat.add Z.of_nat] in P. rewrite repeat_length, Z2Nat.id in P by lia.
    rewrite P.
    - rewrite Hs, Nat.eqb_refl, skipn_all2 by (rewrite ?repeat_length; lia).
      rewrite app_nil_r. reflexivity.
    - rewrite ?repeat_length; lia.
    - destruct (Z.to_nat N) eqn:E; [lia | discriminate].
    - rewrite ?repeat_length, ?Z2Nat.id by lia. lia. }
  split; [rewrite Hfill; reflexivity|].
  rewrite Hfill. cbn [Ring.writeIndex].
  unfold Drive.delayed in *. rewrite Hfill in Hj |- *.
  set (rb1 := Ring.setDelayTime t smoothTime
                (Ring.mkRing (Heap.mkHeapBlock s 0) N 0 R 0 (Smooth.init 0))) in *.
  destruct (RingFacts2.setDelayTime_frame t smoothTime
              (Ring.mkRing (Heap.mkHeapBlock s 0) N 0 R 0 (Smooth.init 0)))
    as (B1 & S1 & W1 & R1 & T1).
  fold rb1 in B1, S1, W1, R1, T1. cbn [Ring.buffer Ring.size Ring.writeIndex Ring.sampleRate] in *.
  destruct (RingFacts2.readN_settles j rb1 Hj) as (B2 & S2 & W2 & R2 & C2 & T2).
  set (rb2 := Drive.readN j noInterp rb1) in *.
  rewrite RingFacts2.getFromBuffer_noInterp_eq, RingFacts2.getNextValue_settled by exact C2.
  cbn [fst]. rewrite T2, R2, R1, B2, B1.
  (* the delay value: [t == k / R], inside the clamp *)
  assert (HRq : ~ inject_Z R == 0).
  { intro E. unfold Qeq in E. cbn in E. lia. }
  assert (HRpos : 0 < inject_Z R).
  { change 0 with (inject_Z 0). rewrite <- Zlt_Qlt. lia. }
  assert (Htk : t == inject_Z k / inject_Z R).
  { rewrite <- Ht. field. exact HRq. }
  assert (Hpos : 0 <= t).
  { rewrite Htk. apply Qle_shift_div_l; [exact HRpos|].
    rewrite Qmult_0_l. change 0 with (inject_Z 0). rewrite <- Zle_Qle. lia. }
  assert (Hclamp : Math.clamp (Qabs t) 0 (inject_Z N / inject_Z R) = Qabs t).
  { apply RingFacts.clamp_in; [apply Qabs_nonneg|].
    rewrite Qabs_pos by exact Hpos. rewrite Htk.
    unfold Qdiv. apply Qmult_le_compat_r.
    - rewrite <- Zle_Qle. lia.
    - apply Qinv_le_0_compat. apply Qlt_le_weak. exact HRpos. }
  rewrite Hclamp in T1.
  assert (Hoff : to_uint (inject_Z R * Smooth.sv_target (Ring.delayTime rb1)) = k).
  { unfold to_uint.
    rewrite (RingFacts.Qtrunc_comp _ (inject_Z k)).
    - rewrite RingFacts.Qtrunc_Z by lia. apply RingFacts.u32_small. unfold UINT_MOD. lia.
    - rewrite T1, Qabs_pos by exact Hpos. exact Ht. }
  rewrite Hoff.
  rewrite (RingFacts2.getReadIndex_fresh k N rb2) by (try rewrite W2, W1; try rewrite S2, S1; lia).
  unfold Heap.get, Heap.getSize. cbn [Heap.hb_data].
  replace (Z.of_nat (length s) <=? (0 - k) mod N)%Z with false.
  - reflexivity.
  - symmetry. apply Z.leb_gt. rewrite Hs, Z2Nat.id by lia.
    apply Z.mod_pos_bound. lia.
Qed.

Lemma delay_roundtrip_settled_witness :
  Ring.writeIndex (Drive.filled 4 4 [1;2;3;4]) = 0%Z /\
  fst (Ring.getFromBuffer noInterp (Drive.readN 0 noInterp (Drive.delayed 4 4 (1 # 4) [1;2;3;4] 0)))
    = nth (Z.to_nat ((Ring.writeIndex (Drive.filled 4 4 [1;2;3;4]) - 1) mod 4)) [1;2;3;4] 0.
Proof.
  apply (delay_roundtrip_settled 4 4 1 (1 # 4) [1;2;3;4] 0 0);
    [lia | lia | lia | reflexivity | reflexivity | lia | unfold UINT_MOD; lia | unfold UINT_MOD; lia
    | vm_compute; discriminate].
Defined.

Module BiquadFacts.
Import Biquad.

(** Every field of the filter after an enabled [setParameters]. *)
Lemma setParameters_fields : forall p f, enabled p = true ->
  let f' := fst (setParameters p f) in
  let ck := negb (Qeq_bool (cutoff p) (prevCutoff (co f)))
            || negb (Qeq_bool (inject_Z (sampleRate f)) (prevSampleRate (co f))) in
  let kk := if ck then Drive.kOf (cutoff p) (sampleRate f) else k (co f) in
  let kk2 := if ck then kk * kk else k2 (co f) in
  let cq := negb (Qeq_bool (q p) (prevQ (co f))) in
  let nn := if cq then 1 / (1 + kk / q p + kk2) else n (co f) in
  parameters f' = p /\ sampleRate f' = sampleRate f /\
  k (co f') = kk /\ k2 (co f') = kk2 /\ n (co f') = nn /\
  prevCutoff (co f') = (if ck then cutoff p else prevCutoff (co f)) /\
  prevSampleRate (co f') = (if ck then inject_Z (sampleRate f) else prevSampleRate (co f)) /\
  prevQ (co f') = (if cq then q p else prevQ (co f)) /\
  a0 (co f') = (match type p with lowpass => kk2 * nn | highpass => nn end) /\
  a1 (co f') = (match type p with lowpass => 2 * (kk2 * nn) | highpass => -2 * nn end) /\
  a2 (co f') = a0 (co f') /\
  b1 (co f') = 2 * (kk2 - 1) * nn /\
  b2 (co f') = (1 - kk / q p + kk2) * nn /\
  dly1 (co f') = dly1 (co f) /\ dly2 (co f') = dly2 (co f).
Proof.
  intros p f Hen. unfold setParameters, setCoefficients, Drive.kOf.
  rewrite Hen. cbn [negb].
  destruct f as [p0 sr c]. cbn [parameters sampleRate co].
  destruct (negb (Qeq_bool (cutoff p) (prevCutoff c))
            || negb (Qeq_bool (inject_Z sr) (prevSampleRate c))).
  - unfold qdiv, dz_bind. destruct (Math.FastTan (Math.M_PI * (cutoff p / inject_Z sr))) as [t z].
    cbn -[Qeq_bool Qdiv Qmult Qplus Qminus].
    destruct (negb (Qeq_bool (q p) (prevQ c))); cbn -[Qeq_bool Qdiv Qmult Qplus Qminus];
      destruct (type p); repeat split.
  - unfold qdiv, dz_bind, dz_ret.
    cbn -[Qeq_bool Qdiv Qmult Qplus Qminus].
    destruct (negb (Qeq_bool (q p) (prevQ c))); cbn -[Qeq_bool Qdiv Qmult Qplus Qminus];
      destruct (type p); repeat split.
Qed.

(** The tangent values at 44.1 kHz for the cutoffs used below. *)
Lemma kOf_500_bounds : 0 < Drive.kOf 500 44100 < 1.
Proof. split; vm_compute; reflexivity. Qed.

Lemma kOf_1000_2000 : 0 < Drive.kOf 1000 44100 /\ Drive.kOf 1000 44100 < Drive.kOf 2000 44100.
Proof. split; vm_compute; reflexivity. Qed.

Lemma disabled_stores : forall p f, enabled p = false ->
  fst (setParameters p f) = mkFilter p (sampleRate f) (co f).
Proof. intros p f H. unfold setParameters. rewrite H. reflexivity. Qed.

(** With [n] computed for the cutoff [K1] and the cutoff then moved to [K2]
    with the same [Q = 1/2], the lowpass DC gain is not 1. *)
Lemma stale_gain_ne1 : forall K1 K2 : Q, 0 < K1 -> K1 < K2 ->
  let n1 := 1 / (1 + K1 / (1#2) + K1 * K1) in
  let a0' := K2 * K2 * n1 in
  ~ (a0' + 2 * a0' + a0') / (1 + 2 * (K2 * K2 - 1) * n1 + (1 - K2 / (1#2) + K2 * K2) * n1) == 1.
Proof.
  intros K1 K2 H1 H12 n1 a0' H.
  set (D := 1 + K1 / (1#2) + K1 * K1) in *.
  assert (HD : 0 < D) by (unfold D; assert (K1 / (1#2) == 2 * K1) by field; nra).
  assert (HDnz : ~ D == 0) by (intro E; rewrite E in HD; discriminate).
  set (den := 1 + 2 * (K2 * K2 - 1) * n1 + (1 - K2 / (1#2) + K2 * K2) * n1) in *.
  destruct (Qeq_dec den 0) as [Hz|Hnz].
  - rewrite Hz in H. unfold Qdiv in H. change (/ 0) with 0 in H.
    rewrite Qmult_0_r in H. discriminate.
  - assert (Hx : a0' + 2 * a0' + a0' - den == (K2 * K2 + 2 * K2 - K1 * K1 - 2 * K1) / D).
    { unfold a0', den, n1. unfold D in *. field. intro E. apply HDnz.
      setoid_replace (1 + K1 / (1#2) + K1 * K1) with (((1#2) + K1 + K1 * K1 * (1#2)) * 2) by field.
      rewrite E. reflexivity. }
    assert (Heq : a0' + 2 * a0' + a0' == den).
    { rewrite <- (Qmult_1_l den), <- H. field. exact Hnz. }
    assert (H0 : (K2 * K2 + 2 * K2 - K1 * K1 - 2 * K1) / D == 0) by (rewrite <- Hx, Heq; ring).
    assert (Hg : 0 < K2 * K2 + 2 * K2 - K1 * K1 - 2 * K1) by nra.
    assert (Hq : 0 < (K2 * K2 + 2 * K2 - K1 * K1 - 2 * K1) / D).
    { apply Qlt_shift_div_l; [exact HD|]. rewrite Qmult_0_l. exact Hg. }
    rewrite H0 in Hq. discriminate.
Qed.

(** With [n] computed for the current [k] and [k2 = k * k], the lowpass DC
    gain is 1. *)
Lemma fresh_gain_1 : forall K Qv : Q, 0 < K -> 0 < Qv ->
  let n1 := 1 / (1 + K / Qv + K * K) in
  let a0' := K * K * n1 in
  (a0' + 2 * a0' + a0') / (1 + 2 * (K * K - 1) * n1 + (1 - K / Qv + K * K) * n1) == 1.
Proof.
  intros K Qv HK HQ n1 a0'.
  assert (HKQ : 0 < K / Qv) by (apply Qlt_shift_div_l; [exact HQ | rewrite Qmult_0_l; exact HK]).
  assert (HD : 0 < 1 + K / Qv + K * K) by nra.
  assert (HDnz : ~ 1 + K / Qv + K * K == 0) by (intro E; rewrite E in HD; discriminate).
  assert (HQnz : ~ Qv == 0) by (intro E; rewrite E in HQ; discriminate).
  assert (Hden : 1 + 2 * (K * K - 1) * n1 + (1 - K / Qv + K * K) * n1 == 4 * (K * K * n1)).
  { unfold n1. field. split; [exact HQnz|].
    intro E. assert (0 < Qv + K + K * K * Qv) by nra. rewrite E in *. discriminate. }
  assert (Hnum : a0' + 2 * a0' + a0' == 4 * (K * K * n1)) by (unfold a0'; ring).
  assert (Hpos : 0 < 4 * (K * K * n1)).
  { unfold n1. assert (0 < 1 / (1 + K / Qv + K * K))
      by (apply Qlt_shift_div_l; [exact HD | rewrite Qmult_0_l; reflexivity]).
    assert (0 < K * K) by nra. nra. }
  rewrite Hden, Hnum. field.
  split; intro E; assert (Hz : 4 * (K * K * n1) == 0) by (rewrite E; ring);
    rewrite Hz in Hpos; discriminate.
Qed.

Lemma Filter_ext : forall f g,
  parameters f = parameters g -> sampleRate f = sampleRate g ->
  a0 (co f) = a0 (co g) -> a1 (co f) = a1 (co g) -> a2 (co f) = a2 (co g) ->
  b1 (co f) = b1 (co g) -> b2 (co f) = b2 (co g) ->
  dly1 (co f) = dly1 (co g) -> dly2 (co f) = dly2 (co g) ->
  k (co f) = k (co g) -> k2 (co f) = k2 (co g) -> n (co f) = n (co g) ->
  prevQ (co f) = prevQ (co g) -> prevCutoff (co f) = prevCutoff (co g) ->
  prevSampleRate (co f) = prevSampleRate (co g) -> f = g.
Proof.
  intros [p s [] ] [p' s' [] ]; cbn; intros; subst; reflexivity.
Qed.

(** A second [setParameters] with the same parameters changes nothing. *)
Lemma setParameters_idem : forall p f,
  fst (setParameters p (fst (setParameters p f))) = fst (setParameters p f).
Proof.
  intros p f. destruct (enabled p) eqn:Hen.
  2: { rewrite !disabled_stores by exact Hen. reflexivity. }
  pose proof (setParameters_fields p f Hen) as F.
  remember (fst (setParameters p f)) as f' eqn:Ef'.
  pose proof (setParameters_fields p f' Hen) as F'.
  remember (fst (setParameters p f')) as f'' eqn:Ef''.
  cbv zeta in F, F'.
  destruct F as (P & S & K & K2 & N & PC & PS & PQ & A0 & A1 & A2 & B1 & B2 & D1 & D2).
  assert (Hck : negb (Qeq_bool (cutoff p) (prevCutoff (co f')))
                || negb (Qeq_bool (inject_Z (sampleRate f')) (prevSampleRate (co f'))) = false).
  { rewrite PC, PS, S.
    destruct (negb (Qeq_bool (cutoff p) (prevCutoff (co f)))
              || negb (Qeq_bool (inject_Z (sampleRate f)) (prevSampleRate (co f)))) eqn:E.
    - rewrite !Qeq_bool_refl. reflexivity.
    - exact E. }
  assert (Hcq : negb (Qeq_bool (q p) (prevQ (co f'))) = false).
  { rewrite PQ. destruct (negb (Qeq_bool (q p) (prevQ (co f)))) eqn:E.
    - rewrite Qeq_bool_refl. reflexivity.
    - exact E. }
  rewrite Hck, Hcq in F'.
  destruct F' as (P' & S' & K' & K2' & N' & PC' & PS' & PQ' & A0' & A1' & A2' & B1' & B2' & D1' & D2').
  apply Filter_ext; try congruence;
    rewrite ?A2', ?A2, ?A0', ?A0, ?A1', ?A1, ?B1', ?B1, ?B2', ?B2, ?K', ?K2', ?N', ?K, ?K2, ?N;
    reflexivity.
Qed.

End BiquadFacts.

(** C5 (code bug). The lowpass DC gain [(a0+a1+a2)/(1+b1+b2)] is 1 when
    [n] is computed for the current [k], but [setCoefficients] recomputes [n]
    only when [Q] changes: after [prepare (44100)], cutoff 1000 and then
    cutoff 2000 at the same [Q = 0.5], [k] is the one of 2000 Hz while [n]
    is still the one of 1000 Hz, and the DC gain is not 1; a filter set to
    2000 Hz directly has DC gain 1. The highpass sum [a0+a1+a2] is 0 after
    every enabled [setParameters]. *)
Theorem biquad_dc_gain_stale_n :
  let p1 := Biquad.mkParams Biquad.lowpass 1000 (1#2) true in
  let p2 := Biquad.mkParams Biquad.lowpass 2000 (1#2) true in
  let f2 := Drive.biquad2 44100 p1 p2 in
  Biquad.k (Biquad.co f2) = Drive.kOf 2000 44100 /\
  Biquad.n (Biquad.co f2)
    = 1 / (1 + Drive.kOf 1000 44100 / (1#2) + Drive.kOf 1000 44100 * Drive.kOf 1000 44100) /\
  ~ Drive.dcGain f2 == 1 /\
  Drive.dcGain (fst (Biquad.setParameters p2 (Biquad.prepare 44100 Biquad.init))) == 1 /\
  (forall p f, Biquad.enabled p = true -> Biquad.type p = Biquad.highpass ->
     let c := Biquad.co (fst (Biquad.setParameters p f)) in
     Biquad.a0 c + Biquad.a1 c + Biquad.a2 c == 0).
Proof.
  cbv zeta. unfold Drive.biquad2.
  pose proof (BiquadFacts.setParameters_fields (Biquad.mkParams Biquad.lowpass 1000 (1#2) true)
                (Biquad.prepare 44100 Biquad.init) eq_refl) as F1.
  remember (fst (Biquad.setParameters (Biquad.mkParams Biquad.lowpass 1000 (1#2) true)
                (Biquad.prepare 44100 Biquad.init))) as f1 eqn:Ef1.
  cbn -[Drive.kOf Qdiv Qmult Qplus Qminus] in F1.
  destruct F1 as (P1 & S1 & K1 & K21 & N1 & PC1 & PS1 & PQ1 & _).
  pose proof (BiquadFacts.setParameters_fields (Biquad.mkParams Biquad.lowpass 2000 (1#2) true)
                f1 eq_refl) as F2.
  remember (fst (Biquad.setParameters (Biquad.mkParams Biquad.lowpass 2000 (1#2) true) f1))
    as f2 eqn:Ef2.
  rewrite PC1, PS1, PQ1, S1, K1, K21, N1 in F2.
  cbn -[Drive.kOf Qdiv Qmult Qplus Qminus] in F2.
  destruct F2 as (_ & _ & K2 & _ & N2 & _ & _ & _ & A0 & A1 & A2 & B1 & B2 & _).
  pose proof (BiquadFacts.setParameters_fields (Biquad.mkParams Biquad.lowpass 2000 (1#2) true)
                (Biquad.prepare 44100 Biquad.init) eq_refl) as F3.
  remember (fst (Biquad.setParameters (Biquad.mkParams Biquad.lowpass 2000 (1#2) true)
                (Biquad.prepare 44100 Biquad.init))) as f3 eqn:Ef3.
  cbn -[Drive.kOf Qdiv Qmult Qplus Qminus] in F3.
  destruct F3 as (_ & _ & _ & _ & _ & _ & _ & _ & A0' & A1' & A2' & B1' & B2' & _).
  destruct BiquadFacts.kOf_1000_2000 as [Hk1 Hk12].
  split; [exact K2|]. split; [exact N2|]. split; [|split].
  - unfold Drive.dcGain. rewrite A2, A0, A1, B1, B2.
    exact (BiquadFacts.stale_gain_ne1 _ _ Hk1 Hk12).
  - unfold Drive.dcGain. rewrite A2', A0', A1', B1', B2'.
    apply (BiquadFacts.fresh_gain_1 (Drive.kOf 2000 44100) (1#2)); [|reflexivity].
    apply (Qlt_trans _ _ _ Hk1 Hk12).
  - intros p f Hen Ht.
    destruct (BiquadFacts.setParameters_fields p f Hen)
      as (_ & _ & _ & _ & _ & _ & _ & _ & H0 & H1 & H2 & _).
    rewrite H2, H0, H1, Ht. ring.
Qed.

(** C7 (counterexample). After [prepare (44100)] and a lowpass at cutoff 500
    with [Q = M_SQRT1_2], a [setParameters] switching to highpass at the same
    cutoff, [Q] and sample rate finds all three equal to the cached values
    and leaves [k], [k2] and [n] unchanged, yet [a0] changes (from [k2 * n]
    to [n]): the coefficients are recomputed on every enabled call. *)
Theorem biquad_cached_type_change_cex :
  let f1 := fst (Biquad.setParameters
                   (Biquad.mkParams Biquad.lowpass 500 Biquad.M_SQRT1_2 true)
                   (Biquad.prepare 44100 Biquad.init)) in
  let f2 := fst (Biquad.setParameters
                   (Biquad.mkParams Biquad.highpass 500 Biquad.M_SQRT1_2 true) f1) in
  Qeq_bool 500 (Biquad.prevCutoff (Biquad.co f1)) = true /\
  Qeq_bool (inject_Z (Biquad.sampleRate f1)) (Biquad.prevSampleRate (Biquad.co f1)) = true /\
  Qeq_bool Biquad.M_SQRT1_2 (Biquad.prevQ (Biquad.co f1)) = true /\
  Biquad.k (Biquad.co f2) = Biquad.k (Biquad.co f1) /\
  Biquad.k2 (Biquad.co f2) = Biquad.k2 (Biquad.co f1) /\
  Biquad.n (Biquad.co f2) = Biquad.n (Biquad.co f1) /\
  ~ Biquad.a0 (Biquad.co f2) == Biquad.a0 (Biquad.co f1).
Proof.
  cbv zeta.
  pose proof (BiquadFacts.setParameters_fields
                (Biquad.mkParams Biquad.lowpass 500 Biquad.M_SQRT1_2 true)
                (Biquad.prepare 44100 Biquad.init) eq_refl) as F1.
  remember (fst (Biquad.setParameters (Biquad.mkParams Biquad.lowpass 500 Biquad.M_SQRT1_2 true)
                (Biquad.prepare 44100 Biquad.init))) as f1 eqn:Ef1.
  cbn -[Drive.kOf Qdiv Qmult Qplus Qminus Biquad.M_SQRT1_2] in F1.
  destruct F1 as (_ & S1 & K1 & K21 & N1 & PC1 & PS1 & PQ1 & A01 & _).
  pose proof (BiquadFacts.setParameters_fields
                (Biquad.mkParams Biquad.highpass 500 Biquad.M_SQRT1_2 true) f1 eq_refl) as F2.
  remember (fst (Biquad.setParameters (Biquad.mkParams Biquad.highpass 500 Biquad.M_SQRT1_2 true) f1))
    as f2 eqn:Ef2.
  rewrite PC1, PS1, PQ1, S1 in F2. rewrite !Qeq_bool_refl in F2.
  cbn -[Drive.kOf Qdiv Qmult Qplus Qminus Biquad.M_SQRT1_2] in F2.
  destruct F2 as (_ & _ & K2 & K22 & N2 & _ & _ & _ & A02 & _).
  rewrite PC1, PS1, PQ1, S1, !Qeq_bool_refl.
  split; [reflexivity|]. split; [reflexivity|]. split; [reflexivity|].
  split; [congruence|]. split; [congruence|]. split; [congruence|].
  assert (Hq0 : Qeq_bool Biquad.M_SQRT1_2 0 = false) by reflexivity.
  rewrite A02, A01, N1, Hq0. cbn [negb].
  destruct BiquadFacts.kOf_500_bounds as [H0 H1].
  set (K := Drive.kOf 500 44100) in *.
  assert (Hs : 0 < Biquad.M_SQRT1_2) by reflexivity.
  assert (HKs : 0 < K / Biquad.M_SQRT1_2)
    by (apply Qlt_shift_div_l; [exact Hs | rewrite Qmult_0_l; exact H0]).
  assert (HD : 0 < 1 + K / Biquad.M_SQRT1_2 + K * K) by nra.
  assert (Hn : 0 < 1 / (1 + K / Biquad.M_SQRT1_2 + K * K))
    by (apply Qlt_shift_div_l; [exact HD | rewrite Qmult_0_l; reflexivity]).
  set (nn := 1 / (1 + K / Biquad.M_SQRT1_2 + K * K)) in *.
  assert (HK2 : 0 < 1 - K * K) by nra.
  assert (Hp : 0 < (1 - K * K) * nn) by (apply Qmult_lt_0_compat; assumption).
  intro E. lra.
Qed.

(** C7 (amended). An enabled [Filter::setParameters] recomputes [k] and [k2]
    only when the cutoff or the sample rate differ from the cached values,
    and [n] only when [Q] differs from the cached value; it recomputes
    [a0, a1, a2, b1, b2] on every call from [k], [k2], [n], [Q] and the
    filter type; it leaves [dly1] and [dly2] alone; and a second call with
    the same parameters leaves the whole filter unchanged. *)
Theorem biquad_coefficient_caching : forall p f, Biquad.enabled p = true ->
  let f' := fst (Biquad.setParameters p f) in
  let c := Biquad.co f' in
  (Qeq_bool (Biquad.cutoff p) (Biquad.prevCutoff (Biquad.co f)) = true ->
   Qeq_bool (inject_Z (Biquad.sampleRate f)) (Biquad.prevSampleRate (Biquad.co f)) = true ->
   Biquad.k c = Biquad.k (Biquad.co f) /\ Biquad.k2 c = Biquad.k2 (Biquad.co f)) /\
  (Qeq_bool (Biquad.q p) (Biquad.prevQ (Biquad.co f)) = true ->
   Biquad.n c = Biquad.n (Biquad.co f)) /\
  Biquad.a0 c = (match Biquad.type p with
                 | Biquad.lowpass => Biquad.k2 c * Biquad.n c
                 | Biquad.highpass => Biquad.n c end) /\
  Biquad.a1 c = (match Biquad.type p with
                 | Biquad.lowpass => 2 * Biquad.a0 c
                 | Biquad.highpass => -2 * Biquad.a0 c end) /\
  Biquad.a2 c = Biquad.a0 c /\
  Biquad.b1 c = 2 * (Biquad.k2 c - 1) * Biquad.n c /\
  Biquad.b2 c = (1 - Biquad.k c / Biquad.q p + Biquad.k2 c) * Biquad.n c /\
  Biquad.dly1 c = Biquad.dly1 (Biquad.co f) /\ Biquad.dly2 c = Biquad.dly2 (Biquad.co f) /\
  fst (Biquad.setParameters p f') = f'.
Proof.
  cbv zeta. intros p f Hen.
  pose proof (BiquadFacts.setParameters_fields p f Hen) as F. cbv zeta in F.
  destruct F as (_ & _ & K & K2 & N & _ & _ & _ & A0 & A1 & A2 & B1 & B2 & D1 & D2).
  split; [|split; [|split; [|split; [|split; [|split; [|split; [|split; [|split]]]]]]]].
  - intros Hc Hs. rewrite K, K2, Hc, Hs. split; reflexivity.
  - intros Hq. rewrite N, Hq. reflexivity.
  - rewrite A0, K2, N. reflexivity.
  - rewrite A1, A0. destruct (Biquad.type p); reflexivity.
  - exact A2.
  - rewrite B1, K2, N. reflexivity.
  - rewrite B2, K, K2, N. reflexivity.
  - exact D1.
  - exact D2.
  - apply BiquadFacts.setParameters_idem.
Qed.

Lemma biquad_coefficient_caching_witness :
  Biquad.enabled Biquad.defaultParameters = true /\
  let f := Biquad.prepare 44100 Biquad.init in
  let p := Biquad.defaultParameters in
  let f' := fst (Biquad.setParameters p f) in
  let c := Biquad.co f' in
  (Qeq_bool (Biquad.cutoff p) (Biquad.prevCutoff (Biquad.co f)) = true ->
   Qeq_bool (inject_Z (Biquad.sampleRate f)) (Biquad.prevSampleRate (Biquad.co f)) = true ->
   Biquad.k c = Biquad.k (Biquad.co f) /\ Biquad.k2 c = Biquad.k2 (Biquad.co f)) /\
  (Qeq_bool (Biquad.q p) (Biquad.prevQ (Biquad.co f)) = true ->
   Biquad.n c = Biquad.n (Biquad.co f)) /\
  Biquad.a0 c = (match Biquad.type p with
                 | Biquad.lowpass => Biquad.k2 c * Biquad.n c
                 | Biquad.highpass => Biquad.n c end) /\
  Biquad.a1 c = (match Biquad.type p with
                 | Biquad.lowpass => 2 * Biquad.a0 c
                 | Biquad.highpass => -2 * Biquad.a0 c end) /\
  Biquad.a2 c = Biquad.a0 c /\
  Biquad.b1 c = 2 * (Biquad.k2 c - 1) * Biquad.n c /\
  Biquad.b2 c = (1 - Biquad.k c / Biquad.q p + Biquad.k2 c) * Biquad.n c /\
  Biquad.dly1 c = Biquad.dly1 (Biquad.co f) /\ Biquad.dly2 c = Biquad.dly2 (Biquad.co f) /\
  fst (Biquad.setParameters p f') = f'.
Proof.
  split; [reflexivity|].
  exact (biquad_coefficient_caching Biquad.defaultParameters
           (Biquad.prepare 44100 Biquad.init) eq_refl).
Defined.


Module CombFacts.

Lemma clamp_bounds : forall v lo hi, lo <= hi -> lo <= Math.clamp v lo hi <= hi.
Proof.
  intros v lo hi H. unfold Math.clamp, Qltb.
  destruct (Qle_bool lo v) eqn:E1; cbn [negb].
  - destruct (Qle_bool v hi) eqn:E2; cbn [negb].
    + apply Qle_bool_iff in E1. apply Qle_bool_iff in E2. split; assumption.
    + split; [exact H | apply Qle_refl].
  - split; [apply Qle_refl | exact H].
Qed.

End CombFacts.

(** C8. [CombFilter::process] reads the delayed sample [d] with the
    interpolation of its parameters (the types without a case of their own
    read without interpolation), writes [input + d * feedback] at the write
    index and advances it, and returns [input + d * wet]; the feedback stored
    by [setParameters] lies in [[0, 1]]. *)
Theorem comb_process_step : forall (x : Q) (cf : Comb.CombFilter),
  let p := Comb.parameters cf in
  let interp := match Comb.interpType p with
                | cosineInterp | hermiteInterp => noInterp
                | i => i
                end in
  let d := fst (Ring.getFromBuffer interp (Comb.delay cf)) in
  let rb1 := snd (Ring.getFromBuffer interp (Comb.delay cf)) in
  Comb.process x cf
    = (x + d * Comb.wet p,
       Comb.mkComb (Ring.pushToBuffer (Some (x + d * Comb.feedback p)) rb1) p) /\
  Ring.buffer (Comb.delay (snd (Comb.process x cf)))
    = Heap.set (Ring.buffer rb1) (Ring.writeIndex rb1) (x + d * Comb.feedback p) /\
  (forall newParams freqOffset cf0,
     0 <= Comb.feedback (Comb.parameters (Comb.setParameters newParams freqOffset cf0)) <= 1).
Proof.
  intros x cf p interp d rb1.
  assert (Hd : Comb.getDelay cf = Ring.getFromBuffer interp (Comb.delay cf)).
  { unfold Comb.getDelay, interp, p. destruct (Comb.interpType (Comb.parameters cf)); reflexivity. }
  assert (Hp : Comb.process x cf
    = (x + d * Comb.wet p,
       Comb.mkComb (Ring.pushToBuffer (Some (x + d * Comb.feedback p)) rb1) p)).
  { unfold Comb.process. rewrite Hd. unfold d, rb1.
    destruct (Ring.getFromBuffer interp (Comb.delay cf)). reflexivity. }
  split; [exact Hp|]. split.
  - rewrite Hp. reflexivity.
  - intros newParams freqOffset cf0. cbn.
    apply CombFacts.clamp_bounds. discriminate.
Qed.

Module RiserFacts.
Import Riser.

Lemma nth_list_set_eq : forall {A} (l : list A) n v d,
  (n < length l)%nat -> nth n (list_set l n v) d = v.
Proof.
  intros A l. induction l as [|h t IH]; intros n v d H; [cbn in H; lia|].
  destruct n; cbn; [reflexivity|]. apply IH. cbn in H. lia.
Qed.

Lemma nth_list_set_neq : forall {A} (l : list A) n m v d,
  m <> n -> nth m (list_set l n v) d = nth m l d.
Proof.
  intros A l. induction l as [|h t IH]; intros n m v d H; [reflexivity|].
  destruct n, m; cbn; try reflexivity; [congruence|]. apply IH. congruence.
Qed.

Lemma length_list_set : forall {A} (l : list A) n v, length (list_set l n v) = length l.
Proof.
  intros A l. induction l as [|h t IH]; intros n v; [reflexivity|].
  destruct n; cbn; [reflexivity|]. now rewrite IH.
Qed.

Definition clipped (x : Q) : Prop := - ceil <= x <= ceil.

Lemma processSample_clipped : forall inL inR st oL oR st1,
  processSample inL inR st = Some (oL, oR, st1) -> clipped oL /\ clipped oR.
Proof.
  intros inL inR st oL oR st1 H. unfold processSample in H.
  destruct (Comb.process inL (fst (flanger st))) as [xL fl0].
  destruct (Comb.process inR (snd (flanger st))) as [xR fl1].
  destruct (Biquad.process (Some xL) (fst (lowpass st))) as [[yL lp0]|]; [|discriminate].
  destruct (Biquad.process (Some xR) (snd (lowpass st))) as [[yR lp1]|]; [|discriminate].
  destruct (Biquad.process (Some yL) (fst (highpass st))) as [[zL hp0]|]; [|discriminate].
  destruct (Biquad.process (Some yR) (snd (highpass st))) as [[zR hp1]|]; [|discriminate].
  destruct (Reverb.process zL zR (reverb st)) as [[[wL wR] rv]|]; [|discriminate].
  injection H as <- <- _. unfold clipped.
  split; apply CombFacts.clamp_bounds; discriminate.
Qed.

(** The loop leaves the entries before its start index alone. *)
Lemma processLoop_frame : forall fuel i left right st l' r' st',
  processLoop fuel i left right st = Some (l', r', st') ->
  forall j, (j < i)%nat -> nth j l' 0 = nth j left 0 /\ nth j r' 0 = nth j right 0.
Proof.
  induction fuel as [|fuel IH]; intros i left right st l' r' st' H j Hj.
  - cbn in H. injection H as <- <- _. split; reflexivity.
  - cbn in H.
    destruct (nth_error left i) as [inL|]; [|discriminate].
    destruct (nth_error right i) as [inR|]; [|discriminate].
    destruct (processSample inL inR st) as [[[oL oR] st1]|]; [|discriminate].
    destruct (IH _ _ _ _ _ _ _ H j ltac:(lia)) as [E1 E2].
    rewrite E1, E2, !nth_list_set_neq by lia. split; reflexivity.
Qed.

Lemma processLoop_clipped : forall fuel i left right st l' r' st',
  processLoop fuel i left right st = Some (l', r', st') ->
  forall j, (i <= j < i + fuel)%nat -> clipped (nth j l' 0) /\ clipped (nth j r' 0).
Proof.
  induction fuel as [|fuel IH]; intros i left right st l' r' st' H j Hj; [lia|].
  cbn in H.
  destruct (nth_error left i) as [inL|] eqn:EL; [|discriminate].
  destruct (nth_error right i) as [inR|] eqn:ER; [|discriminate].
  destruct (processSample inL inR st) as [[[oL oR] st1]|] eqn:ES; [|discriminate].
  destruct (Nat.eq_dec j i) as [->|Hne].
  - destruct (processLoop_frame _ _ _ _ _ _ _ _ H i ltac:(lia)) as [E1 E2].
    rewrite E1, E2.
    assert (HL : (i < length left)%nat) by (apply nth_error_Some; congruence).
    assert (HR : (i < length right)%nat) by (apply nth_error_Some; congruence).
    rewrite !nth_list_set_eq by assumption.
    exact (processSample_clipped _ _ _ _ _ _ ES).
  - apply (IH _ _ _ _ _ _ _ H). lia.
Qed.

End RiserFacts.

(** C9 (counterexample). [setClamp]'s comparisons are false for NaN, so a
    NaN reaches [left[i]] unchanged; and a NaN input sample makes the value
    reaching the clamp NaN whatever the state supplies (the flanger's
    delayed sample and wet gain, the filters' coefficients and registers,
    enabled or not, the reverb's gains and comb sums) and however finite
    results are rounded: [RiserProcessor::process] writes NaN, not a value
    in [[-1.2, 1.2]]. *)
Lemma riser_nan_passes_clamp :
  Flt.setClamp Flt.NaN (Flt.Fin (- Riser.ceil)) (Flt.Fin Riser.ceil) = Flt.NaN /\
  (forall rnd32 rnd64 delayed wet en_lp a0_lp dly1_lp en_hp a0_hp dly1_hp d w1 w2 outL outR,
     Flt.sample_out rnd32 rnd64 Flt.NaN delayed wet en_lp a0_lp dly1_lp en_hp a0_hp dly1_hp
       d w1 w2 outL outR = Flt.NaN).
Proof.
  split; [reflexivity|].
  intros. unfold Flt.sample_out, Flt.comb_out, Flt.biquad_out, Flt.reverb_out.
  cbn [Flt.add_with].
  destruct en_lp, en_hp; cbn [Flt.toFloat Flt.mul_with Flt.add_with];
    destruct d; reflexivity.
Qed.

(** C9 (amended). Every sample [RiserProcessor::process] writes back is
    [setClamp] of the chain's output to [[-1.2, 1.2]]. On floating-point
    values [setClamp] gives NaN exactly for a NaN and a value in
    [[-1.2, 1.2]] for everything else, infinities included. In the model,
    where every value is finite, every sample at an index below
    [numSamples] that a completed call writes back, in [left] and in
    [right], lies in [[-1.2, 1.2]], whatever the state. *)
Theorem riser_process_clipped :
  (forall x,
     (x = Flt.NaN /\ Flt.setClamp x (Flt.Fin (- Riser.ceil)) (Flt.Fin Riser.ceil) = Flt.NaN) \/
     (x <> Flt.NaN /\ exists y, Flt.setClamp x (Flt.Fin (- Riser.ceil)) (Flt.Fin Riser.ceil) = Flt.Fin y
                              /\ - Riser.ceil <= y <= Riser.ceil)) /\
  (forall left right numSamples st l' r' st',
     Riser.process left right numSamples st = Some (l', r', st') ->
     forall i, (i < Z.to_nat numSamples)%nat ->
       - Riser.ceil <= nth i l' 0 <= Riser.ceil /\ - Riser.ceil <= nth i r' 0 <= Riser.ceil).
Proof.
  split.
  - intros x. destruct x as [q| | |]; [right | right | right | left].
    + split; [discriminate|]. unfold Flt.setClamp, Flt.lt.
      destruct (Qltb q (- Riser.ceil)) eqn:E1.
      * exists (- Riser.ceil). split; [reflexivity|]. unfold Riser.ceil. lra.
      * destruct (Qltb Riser.ceil q) eqn:E2.
        -- exists Riser.ceil. split; [reflexivity|]. unfold Riser.ceil. lra.
        -- exists q. split; [reflexivity|].
           unfold Qltb in E1, E2. apply negb_false_iff, Qle_bool_iff in E1, E2. split; assumption.
    + split; [discriminate|]. exists Riser.ceil. split; [reflexivity|]. unfold Riser.ceil. lra.
    + split; [discriminate|]. exists (- Riser.ceil). split; [reflexivity|]. unfold Riser.ceil. lra.
    + split; reflexivity.
  - intros left right numSamples st l' r' st' H i Hi.
    unfold Riser.process in H.
    destruct (numSamples <=? 0)%Z eqn:E; [apply Z.leb_le in E; lia|].
    exact (RiserFacts.processLoop_clipped _ _ _ _ _ _ _ _ H i ltac:(lia)).
Qed.

(* A riser whose delay lines are allocated (4 samples at 4 Hz), driven past
   the ceiling. *)
Lemma riser_process_clipped_witness :
  let rb := Ring.prepare 4 4 Ring.init in
  let c := Comb.mkComb rb (Comb.mkParams 100 (1 # 2) (1 # 2) linearInterp) in
  let rc := Reverb.mkComb rb 0 in
  let rv := Reverb.mkReverb 4 (1 # 120) 0 1 (Smooth.init (1 # 2)) (Smooth.init (1 # 2))
              (Smooth.init 1) (Smooth.init 1) (Smooth.init 1) Reverb.defaultParameters
              [repeat rc 8; repeat rc 8] [repeat rc 4; repeat rc 4] [] [] in
  let st := Riser.mkRiser 1 1 1 1 (c, c) (Biquad.init, Biquad.init) (Biquad.init, Biquad.init) rv
              (Comb.parameters c) Biquad.defaultParameters Biquad.defaultParameters
              Reverb.defaultParameters in
  exists l' r' st',
    Riser.process [100000; -100000] [0; 100000] 2 st = Some (l', r', st') /\
    nth 0 l' 0 == Riser.ceil /\
    (- Riser.ceil <= nth 0 l' 0 <= Riser.ceil /\ - Riser.ceil <= nth 0 r' 0 <= Riser.ceil) /\
    (- Riser.ceil <= nth 1 l' 0 <= Riser.ceil /\ - Riser.ceil <= nth 1 r' 0 <= Riser.ceil).
Proof.
  intros rb c rc rv st.
  destruct (Riser.process [100000; -100000] [0; 100000] 2 st) as [[[l' r'] st']|] eqn:E.
  - exists l', r', st'. split; [reflexivity|].
    split; [vm_compute in E; injection E as <- _ _; reflexivity|]. split.
    + apply (proj2 riser_process_clipped _ _ _ _ _ _ _ E 0%nat). cbn. lia.
    + apply (proj2 riser_process_clipped _ _ _ _ _ _ _ E 1%nat). cbn. lia.
  - vm_compute in E. discriminate.
Defined.

Module RingInvariant.
Import Ring Drive.

(** The invariant every reachable buffer satisfies: the [uint] fields are in
    range, and the write index is below the size once the size is not 0. *)
Definition Inv (rb : RingBuffer) : Prop :=
  (0 <= size rb < UINT_MOD)%Z /\ (0 <= writeIndex rb < UINT_MOD)%Z /\
  (size rb = 0 \/ writeIndex rb < size rb)%Z.

Lemma u32_range : forall z, (0 <= u32 z < UINT_MOD)%Z.
Proof. intros z. unfold u32, UINT_MOD. apply Z.mod_pos_bound. lia. Qed.

Lemma clampZ_range : forall v hi, (0 <= hi)%Z -> (0 <= clampZ v 0 hi <= hi)%Z.
Proof.
  intros v hi H. unfold clampZ.
  destruct (v <? 0)%Z eqn:E1; [lia|]. apply Z.ltb_ge in E1.
  destruct (hi <? v)%Z eqn:E2; [lia|]. apply Z.ltb_ge in E2. lia.
Qed.

Lemma incrementWritePointer_inv : forall rb, Inv rb -> Inv (incrementWritePointer rb).
Proof.
  intros rb (HS & HW & HI). unfold Inv, incrementWritePointer. cbn [size writeIndex].
  pose proof (u32_range (writeIndex rb + 1)) as HU.
  destruct HI as [H0|Hlt].
  - rewrite H0. replace (0 <=? u32 (writeIndex rb + 1))%Z with true by (symmetry; apply Z.leb_le; lia).
    rewrite Z.sub_0_r. lia.
  - rewrite RingFacts.u32_small by lia.
    destruct (size rb <=? writeIndex rb + 1)%Z eqn:E; [apply Z.leb_le in E | apply Z.leb_gt in E]; lia.
Qed.

Lemma getFromBuffer_frame : forall i rb,
  size (snd (getFromBuffer i rb)) = size rb /\
  writeIndex (snd (getFromBuffer i rb)) = writeIndex rb.
Proof.
  intros i rb. destruct i; cbn [getFromBuffer];
    unfold getFromBufferNoInterp, getFromBufferLinearInterp, getFromBufferCubicInterp;
    destruct (Smooth.getNextValue (delayTime rb)); split; reflexivity.
Qed.

Lemma prepare_inv : forall n r rb, Inv rb -> Inv (prepare n r rb).
Proof.
  intros n r rb HI. unfold prepare.
  set (n1 := clampZ n 0 (u32 (n * r * 10))).
  destruct (negb (n1 =? size rb))%Z; unfold clear, with_buffer; cbn [size writeIndex].
  - pose proof (u32_range (r * 600)) as HU.
    pose proof (clampZ_range n1 (u32 (r * 600)) ltac:(lia)).
    unfold Inv; cbn [size writeIndex].
    split; [lia|]. split; [unfold UINT_MOD; lia|].
    destruct (Z.eq_dec (clampZ n1 0 (u32 (r * 600))) 0); lia.
  - exact HI.
Qed.

Lemma apply_op_inv : forall o rb, Inv rb -> Inv (apply_op o rb).
Proof.
  intros o rb HI. destruct o as [n r|secs r| |t st|[x|]|[x|]| |i]; cbn [apply_op].
  - apply prepare_inv. exact HI.
  - apply prepare_inv. exact HI.
  - exact HI.
  - unfold setDelayTime, with_delayTime.
    destruct (negb (Qeq_bool st (delaySmoothTime rb))); exact HI.
  - apply incrementWritePointer_inv. exact HI.
  - exact HI.
  - cbn [getAndPush]. cbn [pushToBuffer].
    destruct (getFromBuffer noInterp
                (incrementWritePointer (with_buffer rb (Heap.set (buffer rb) (writeIndex rb) x))))
      as [v rb2] eqn:E.
    cbn [snd].
    pose proof (getFromBuffer_frame noInterp
                  (incrementWritePointer (with_buffer rb (Heap.set (buffer rb) (writeIndex rb) x))))
      as [F1 F2].
    rewrite E in F1, F2. cbn [snd] in F1, F2.
    pose proof (incrementWritePointer_inv (with_buffer rb (Heap.set (buffer rb) (writeIndex rb) x)) HI)
      as HI'.
    unfold Inv in *. rewrite F1, F2. exact HI'.
  - exact HI.
  - apply incrementWritePointer_inv. exact HI.
  - pose proof (getFromBuffer_frame i rb) as [F1 F2]. unfold Inv in *. rewrite F1, F2. exact HI.
Qed.

Lemma fold_inv : forall ops rb, Inv rb -> Inv (fold_left (fun rb o => apply_op o rb) ops rb).
Proof.
  induction ops as [|o ops IH]; intros rb HI; [exact HI|].
  cbn [fold_left]. apply IH. apply apply_op_inv. exact HI.
Qed.

End RingInvariant.

(** C10. For every sequence of ring buffer operations applied from
    construction ([prepare] in samples or seconds, [clear], [setDelayTime],
    [pushToBuffer], [getAndPush], [forceIncrementWritePointer] and every
    read), once the size is positive the write index satisfies
    [0 <= writeIndex < size]. *)
Theorem ring_writeIndex_in_range : forall ops : list Drive.op,
  let rb := fold_left (fun rb o => Drive.apply_op o rb) ops Ring.init in
  (0 < Ring.size rb)%Z -> (0 <= Ring.writeIndex rb < Ring.size rb)%Z.
Proof.
  intros ops rb Hs.
  assert (HI : RingInvariant.Inv rb).
  { apply RingInvariant.fold_inv. unfold RingInvariant.Inv, UINT_MOD. cbn. lia. }
  destruct HI as (_ & HW & [H0|Hlt]); lia.
Qed.

Lemma ring_writeIndex_in_range_witness :
  let ops := [Drive.OpPush (Some 5); Drive.OpPrepare 4 4; Drive.OpPush (Some 1);
              Drive.OpPush (Some 2); Drive.OpRead linearInterp] in
  let rb := fold_left (fun rb o => Drive.apply_op o rb) ops Ring.init in
  (0 < Ring.size rb)%Z /\ (0 <= Ring.writeIndex rb < Ring.size rb)%Z.
Proof.
  intros ops rb. split.
  - vm_compute. reflexivity.
  - apply (ring_writeIndex_in_range ops). vm_compute. reflexivity.
Defined.

(** * Further properties of the code *)

(** ** [pa::math] *)
Module MathFacts.
Import Math.

Lemma Qtrunc_frac_nonneg : forall q, 0 <= q -> 0 <= q - inject_Z (Qtrunc q) < 1.
Proof.
  intros q Hq. unfold Qtrunc, Qltb.
  replace (Qle_bool 0 q) with true by (symmetry; apply Qle_bool_iff; exact Hq).
  cbn [negb]. pose proof (Qfloor_le q) as A. pose proof (Qlt_floor q) as B.
  rewrite inject_Z_plus in B. change (inject_Z 1) with 1 in B. split; lra.
Qed.

Lemma Qtrunc_frac_neg : forall q, q < 0 -> -1 < q - inject_Z (Qtrunc q) <= 0.
Proof.
  intros q Hq. unfold Qtrunc, Qltb.
  replace (Qle_bool 0 q) with false
    by (symmetry; apply not_true_iff_false; rewrite Qle_bool_iff; lra).
  cbn [negb]. pose proof (Qfloor_le (- q)) as A. pose proof (Qlt_floor (- q)) as B.
  rewrite inject_Z_plus in B. change (inject_Z 1) with 1 in B.
  rewrite inject_Z_opp. split; lra.
Qed.

Lemma Qtrunc_small : forall q, -1 < q < 1 -> Qtrunc q = 0%Z.
Proof.
  intros q Hq.
  assert (H : -1 < q - inject_Z (Qtrunc q) < 1 /\ (0 <= q -> 0 <= q - inject_Z (Qtrunc q))
              /\ (q < 0 -> q - inject_Z (Qtrunc q) <= 0)).
  { destruct (Qlt_le_dec q 0) as [Hn|Hp].
    - pose proof (Qtrunc_frac_neg q Hn). repeat split; try lra; intros; lra.
    - pose proof (Qtrunc_frac_nonneg q Hp). repeat split; try lra; intros; lra. }
  assert (A : (-1 < Qtrunc q)%Z).
  { rewrite Zlt_Qlt. change (inject_Z (-1)) with (-1).
    destruct (Qlt_le_dec q 0); lra. }
  assert (B : (Qtrunc q < 1)%Z).
  { rewrite Zlt_Qlt. change (inject_Z 1) with 1.
    destruct (Qlt_le_dec q 0); lra. }
  lia.
Qed.

Lemma M_PI_pos : 0 < M_PI.
Proof. reflexivity. Qed.

Lemma fmod_range : forall a b, 0 < b -> - b < fmod a b < b.
Proof.
  intros a b Hb. unfold fmod.
  set (t := inject_Z (Qtrunc (a / b))).
  assert (Hr : -1 < a / b - t < 1).
  { destruct (Qlt_le_dec (a / b) 0) as [Hn|Hp].
    - pose proof (Qtrunc_frac_neg _ Hn). unfold t. lra.
    - pose proof (Qtrunc_frac_nonneg _ Hp). unfold t. lra. }
  assert (E : a - t * b == (a / b - t) * b) by (field; lra).
  rewrite E. split; nra.
Qed.

Lemma fmod_small : forall a b, 0 < b -> - b < a < b -> fmod a b == a.
Proof.
  intros a b Hb Ha. unfold fmod.
  rewrite (Qtrunc_small (a / b)).
  - change (inject_Z 0) with 0. ring.
  - split.
    + apply Qlt_shift_div_l; [exact Hb|]. lra.
    + apply Qlt_shift_div_r; [exact Hb|]. lra.
Qed.

(** The closed form of [ExpRounder] on [(0, 1]] and [[-1, 0]], with the
    mapped curve value, which lies in [[-0.95, 20]]. *)
Lemma ExpRounder_curve : forall c, exists cm, - (95 # 100) <= cm <= 20 /\
  (forall x, 0 < x <= 1 -> ExpRounder x c = (x * (1 + cm)) / (cm * x + 1)) /\
  (forall x, -1 <= x <= 0 -> ExpRounder x c = (- x * (1 + cm)) / (cm * x - 1)) /\
  (forall x, 1 < x -> ExpRounder x c = ExpRounder 1 c) /\
  (forall x, x < -1 -> ExpRounder x c = ExpRounder (-1) c).
Proof.
  intros c.
  pose proof (CombFacts.clamp_bounds c (-1) 1 ltac:(discriminate)) as Hc.
  set (cc := clamp c (-1) 1) in *.
  exists (if Qle_bool 0 cc then map cc 0 1 0 20 else map cc (-1) 0 (-(95 # 100)) 0).
  split; [|split; [|split; [|split]]].
  - destruct (Qle_bool 0 cc) eqn:E; unfold map.
    + apply Qle_bool_iff in E.
      setoid_replace ((cc - 0) / (1 - 0) * (20 - 0) + 0) with (20 * cc) by field. lra.
    + assert (cc < 0) by (apply Qnot_le_lt; intro H; apply Qle_bool_iff in H; congruence).
      setoid_replace ((cc - -1) / (0 - -1) * (0 - - (95 # 100)) + - (95 # 100))
        with ((95 # 100) * cc) by field. lra.
  - intros x Hx. unfold ExpRounder. fold cc.
    rewrite (RingFacts.clamp_in x (-1) 1) by lra.
    replace (Qltb 0 x) with true
      by (symmetry; unfold Qltb; apply negb_true_iff, not_true_iff_false;
          rewrite Qle_bool_iff; lra).
    replace (Qle_bool x 1) with true by (symmetry; apply Qle_bool_iff; lra).
    reflexivity.
  - intros x Hx. unfold ExpRounder. fold cc.
    rewrite (RingFacts.clamp_in x (-1) 1) by lra.
    replace (Qltb 0 x) with false
      by (symmetry; unfold Qltb; apply negb_false_iff, Qle_bool_iff; lra).
    replace (Qle_bool (-1) x) with true by (symmetry; apply Qle_bool_iff; lra).
    replace (Qle_bool x 0) with true by (symmetry; apply Qle_bool_iff; lra).
    reflexivity.
  - intros x Hx. unfold ExpRounder.
    replace (clamp x (-1) 1) with 1.
    + reflexivity.
    + unfold clamp, Qltb.
      replace (Qle_bool (-1) x) with true by (symmetry; apply Qle_bool_iff; lra).
      replace (Qle_bool x 1) with false
        by (symmetry; apply not_true_iff_false; rewrite Qle_bool_iff; lra).
      reflexivity.
  - intros x Hx. unfold ExpRounder.
    replace (clamp x (-1) 1) with (-1).
    + reflexivity.
    + unfold clamp, Qltb.
      replace (Qle_bool (-1) x) with false
        by (symmetry; apply not_true_iff_false; rewrite Qle_bool_iff; lra).
      reflexivity.
Qed.

Lemma Qdiv_nonneg : forall a b, 0 <= a -> 0 < b -> 0 <= a / b.
Proof. intros a b Ha Hb. apply Qle_shift_div_l; [exact Hb|]. lra. Qed.

(** [ExpRounder] maps [[0, 1]] into [[0, 1]], monotonically. *)
Lemma ExpRounder_unit : forall x c, 0 <= x <= 1 -> 0 <= ExpRounder x c <= 1.
Proof.
  intros x c Hx. destruct (ExpRounder_curve c) as [cm [Hcm [Hp [Hn _]]]].
  destruct (Qlt_le_dec 0 x) as [Hx0|Hx0].
  - rewrite (Hp x) by lra.
    assert (HD : 0 < cm * x + 1) by nra.
    split.
    + apply Qdiv_nonneg; [nra | exact HD].
    + apply Qle_shift_div_r; [exact HD|]. nra.
  - rewrite (Hn x) by lra.
    assert (E : - x * (1 + cm) == 0) by (setoid_replace x with 0 by lra; ring).
    unfold Qdiv. rewrite E, Qmult_0_l. lra.
Qed.

Lemma ExpRounder_mono : forall x y c, 0 <= x -> x <= y -> y <= 1 ->
  ExpRounder x c <= ExpRounder y c.
Proof.
  intros x y c Hx Hxy Hy. destruct (ExpRounder_curve c) as [cm [Hcm [Hp [Hn _]]]].
  destruct (Qlt_le_dec 0 x) as [Hx0|Hx0].
  - rewrite (Hp x), (Hp y) by lra.
    assert (HDx : 0 < cm * x + 1) by nra.
    assert (HDy : 0 < cm * y + 1) by nra.
    assert (E : y * (1 + cm) / (cm * y + 1) - x * (1 + cm) / (cm * x + 1)
                == (1 + cm) * (y - x) / ((cm * x + 1) * (cm * y + 1)))
      by (field; split; lra).
    assert (0 <= (1 + cm) * (y - x) / ((cm * x + 1) * (cm * y + 1))).
    { apply Qdiv_nonneg; nra. }
    lra.
  - pose proof (ExpRounder_unit y c ltac:(lra)).
    rewrite (Hn x) by lra.
    assert (E : - x * (1 + cm) == 0) by (setoid_replace x with 0 by lra; ring).
    unfold Qdiv at 1. rewrite E, Qmult_0_l. lra.
Qed.

End MathFacts.

(** X1. [WrapPi] does not wrap into [[-pi, pi]]: its result always lies in
    [(-3 pi, pi)], and an input already in [(-pi, 3 pi)] comes back shifted
    by [-2 pi] (by [-pi] in the half-pi mode, for inputs in
    [(-pi/2, 3 pi/2)]). So [FastSin] and [FastCos] evaluate their
    approximations outside their range: [FastSin 0 > 0.1], [FastCos 0 < 0.75]. *)
Theorem WrapPi_shift (x : Q) :
  - (3 * Math.M_PI) < Math.WrapPi x false < Math.M_PI /\
  (- Math.M_PI < x < 3 * Math.M_PI -> Math.WrapPi x false == x - 2 * Math.M_PI) /\
  (- (Math.M_PI * (1 # 2)) < x < 3 * (Math.M_PI * (1 # 2)) ->
     Math.WrapPi x true == x - Math.M_PI) /\
  1 # 10 < Math.FastSin 0 /\ Math.FastCos 0 < 3 # 4.
Proof.
  pose proof MathFacts.M_PI_pos as Hpi.
  split; [|split; [|split; [|split]]].
  - unfold Math.WrapPi.
    pose proof (MathFacts.fmod_range (x - Math.M_PI) (2 * Math.M_PI) ltac:(lra)). lra.
  - intros Hx. unfold Math.WrapPi.
    rewrite (MathFacts.fmod_small (x - Math.M_PI) (2 * Math.M_PI)) by lra. ring.
  - intros Hx. unfold Math.WrapPi.
    rewrite (MathFacts.fmod_small (x - Math.M_PI * (1 # 2)) Math.M_PI) by lra. ring.
  - vm_compute. reflexivity.
  - vm_compute. reflexivity.
Qed.

Lemma WrapPi_shift_witness :
  Math.WrapPi 1 false == 1 - 2 * Math.M_PI /\ Math.WrapPi 1 true == 1 - Math.M_PI.
Proof.
  destruct (WrapPi_shift 1) as [_ [H1 [H2 _]]].
  split; [apply H1 | apply H2]; split; vm_compute; reflexivity.
Defined.

(** X2. For an input whose conversion [int(input)] is defined
    ([-2^31 < x < 2^31]), [mod1] keeps the sign of its input: it lies in
    [[0, 1)] for [x >= 0] and in [(-1, 0]] for [x < 0]. *)
Theorem mod1_sign (x : Q) (Hx : - inject_Z (2 ^ 31) < x < inject_Z (2 ^ 31)) :
  (0 <= x -> 0 <= Math.mod1 x < 1) /\ (x < 0 -> -1 < Math.mod1 x <= 0).
Proof.
  unfold Math.mod1. split.
  - apply MathFacts.Qtrunc_frac_nonneg.
  - apply MathFacts.Qtrunc_frac_neg.
Qed.

Lemma mod1_sign_witness :
  (- inject_Z (2 ^ 31) < -5 # 2 < inject_Z (2 ^ 31)) /\ -1 < Math.mod1 (-5 # 2) <= 0.
Proof.
  assert (Hx : - inject_Z (2 ^ 31) < -5 # 2 < inject_Z (2 ^ 31)) by (split; reflexivity).
  split; [exact Hx|]. apply (proj2 (mod1_sign (-5 # 2) Hx)). reflexivity.
Defined.

(** X3. [map] sends [inMin] to [outMin] and [inMax] to [outMax], and mapping
    back with the ranges swapped gives the input again. *)
Theorem map_roundtrip (v inMin inMax outMin outMax : Q) :
  ~ inMin == inMax ->
  Math.map inMin inMin inMax outMin outMax == outMin /\
  Math.map inMax inMin inMax outMin outMax == outMax /\
  (~ outMin == outMax ->
   Math.map (Math.map v inMin inMax outMin outMax) outMin outMax inMin inMax == v).
Proof.
  intros Hin. unfold Math.map.
  assert (Hi : ~ inMax - inMin == 0) by (intro E; apply Hin; lra).
  split; [|split].
  - field. exact Hi.
  - field. exact Hi.
  - intros Hout.
    assert (Ho : ~ outMax - outMin == 0) by (intro E; apply Hout; lra).
    field. split; assumption.
Qed.

Lemma map_roundtrip_witness :
  Math.map (Math.map (1 # 3) 0 1 20000 4000) 20000 4000 0 1 == 1 # 3.
Proof.
  apply (map_roundtrip (1 # 3) 0 1 20000 4000); discriminate.
Defined.

(** X4. [LinearInterp a b t] is the blend [a + t (b - a)] with [t] clamped
    to [[0, 1]]. *)
Theorem LinearInterp_clamped (a b t : Q) :
  Math.LinearInterp a b t == a + Math.clamp t 0 1 * (b - a).
Proof.
  unfold Math.LinearInterp, Math.clamp, Qltb.
  destruct (Qle_bool t 0) eqn:E1.
  - apply Qle_bool_iff in E1.
    destruct (Qle_bool 0 t) eqn:E2; cbn [negb].
    + apply Qle_bool_iff in E2.
      replace (Qle_bool t 1) with true by (symmetry; apply Qle_bool_iff; lra).
      cbn [negb]. setoid_replace t with 0 by lra. ring.
    + ring.
  - assert (Ht : 0 < t) by (apply Qnot_le_lt; intro H; apply Qle_bool_iff in H; congruence).
    replace (Qle_bool 0 t) with true by (symmetry; apply Qle_bool_iff; lra). cbn [negb].
    destruct (Qle_bool 1 t) eqn:E3.
    + apply Qle_bool_iff in E3. destruct (Qle_bool t 1) eqn:E4; cbn [negb].
      * apply Qle_bool_iff in E4. setoid_replace t with 1 by lra. ring.
      * ring.
    + assert (t < 1) by (apply Qnot_le_lt; intro H; apply Qle_bool_iff in H; congruence).
      replace (Qle_bool t 1) with true by (symmetry; apply Qle_bool_iff; lra).
      reflexivity.
Qed.

(** X5. On equally spaced samples [b - h, b, b + h, b + 2h] the Catmull-Rom
    mode of [CubicInterp] returns the straight line [b + t h] ([t] clamped
    to [[0, 1]]); the standard mode returns [b + h (2t^3 - 3t^2 + 2t)] for
    [0 < t < 1], which leaves the line except at [t = 1/2]. *)
Theorem CubicInterp_linear_data (b h t : Q) :
  Math.CubicInterp (b - h) b (b + h) (b + 2 * h) t true == b + Math.clamp t 0 1 * h /\
  (0 < t < 1 ->
   Math.CubicInterp (b - h) b (b + h) (b + 2 * h) t false
   == b + h * (2 * t * t * t - 3 * t * t + 2 * t)).
Proof.
  split.
  - unfold Math.CubicInterp, Math.clamp, Qltb.
    destruct (Qle_bool t 0) eqn:E1.
    + apply Qle_bool_iff in E1.
      destruct (Qle_bool 0 t) eqn:E2; cbn [negb].
      * apply Qle_bool_iff in E2.
        replace (Qle_bool t 1) with true by (symmetry; apply Qle_bool_iff; lra).
        cbn [negb]. setoid_replace t with 0 by lra. ring.
      * ring.
    + assert (Ht : 0 < t)
        by (apply Qnot_le_lt; intro H; apply Qle_bool_iff in H; congruence).
      replace (Qle_bool 0 t) with true by (symmetry; apply Qle_bool_iff; lra). cbn [negb].
      destruct (Qle_bool 1 t) eqn:E3.
      * apply Qle_bool_iff in E3. destruct (Qle_bool t 1) eqn:E4; cbn [negb].
        -- apply Qle_bool_iff in E4. setoid_replace t with 1 by lra. ring.
        -- ring.
      * assert (t < 1)
          by (apply Qnot_le_lt; intro H; apply Qle_bool_iff in H; congruence).
        replace (Qle_bool t 1) with true by (symmetry; apply Qle_bool_iff; lra).
        cbn [negb]. ring.
  - intros Ht. unfold Math.CubicInterp.
    replace (Qle_bool t 0) with false
      by (symmetry; apply not_true_iff_false; rewrite Qle_bool_iff; lra).
    replace (Qle_bool 1 t) with false
      by (symmetry; apply not_true_iff_false; rewrite Qle_bool_iff; lra).
    ring.
Qed.

Lemma CubicInterp_linear_data_witness :
  Math.CubicInterp (0 - 1) 0 (0 + 1) (0 + 2 * 1) (1 # 4) false
  == 0 + 1 * (2 * (1 # 4) * (1 # 4) * (1 # 4) - 3 * (1 # 4) * (1 # 4) + 2 * (1 # 4)).
Proof. apply (proj2 (CubicInterp_linear_data 0 1 (1 # 4))). split; reflexivity. Defined.

(** X6. [ExpRounder] is odd, fixes [0] and [1], and maps [[0, 1]] into
    [[0, 1]] monotonically, whatever the curve value. *)
Theorem ExpRounder_shape (x y c : Q) :
  Math.ExpRounder (- x) c == - Math.ExpRounder x c /\
  Math.ExpRounder 0 c == 0 /\ Math.ExpRounder 1 c == 1 /\
  (0 <= x <= 1 -> 0 <= Math.ExpRounder x c <= 1) /\
  (0 <= x -> x <= y -> y <= 1 -> Math.ExpRounder x c <= Math.ExpRounder y c).
Proof.
  destruct (MathFacts.ExpRounder_curve c) as [cm [Hcm [Hp [Hn [Hhi Hlo]]]]].
  assert (Hodd : forall z, 0 < z <= 1 ->
            Math.ExpRounder (- z) c == - Math.ExpRounder z c).
  { intros z Hz. rewrite (Hp z) by lra. rewrite (Hn (- z)) by lra.
    field. split; nra. }
  split; [|split; [|split; [|split]]].
  - destruct (Qlt_le_dec 1 x) as [H1|H1].
    + rewrite (Hhi x H1), (Hlo (- x)) by lra.
      change (-1) with (- (1)). apply Hodd. lra.
    + destruct (Qlt_le_dec 0 x) as [H0|H0]; [apply Hodd; lra|].
      destruct (Qlt_le_dec x (-1)) as [H2|H2].
      * rewrite (Hlo x H2), (Hhi (- x)) by lra.
        change (-1) with (- (1)).
        rewrite (Hodd 1) by lra. ring.
      * destruct (Qlt_le_dec x 0) as [H3|H3].
        -- rewrite (Hn x), (Hp (- x)) by lra. field. split; nra.
        -- rewrite (Hn x), (Hn (- x)) by lra.
           setoid_replace x with 0 by lra. field.
  - rewrite (Hn 0) by lra. field.
  - rewrite (Hp 1) by lra. field. lra.
  - apply MathFacts.ExpRounder_unit.
  - apply MathFacts.ExpRounder_mono.
Qed.

Lemma ExpRounder_shape_witness :
  Math.ExpRounder (1 # 4) (3 # 10) <= Math.ExpRounder (1 # 2) (3 # 10).
Proof.
  apply (ExpRounder_shape (1 # 4) (1 # 2) (3 # 10)); discriminate.
Defined.

(** ** [HeapBlock] and [RingBuffer] *)
Module HeapFacts.
Import Heap Ring.

Lemma get_set : forall hb i j v, (0 <= i)%Z -> (0 <= j)%Z ->
  getSize (set hb i v) = getSize hb /\
  get (set hb i v) j =
    (if (i =? j)%Z || ((getSize hb <=? i)%Z && (getSize hb <=? j)%Z) then v else get hb j).
Proof.
  intros hb i j v Hi Hj. unfold set, get, getSize.
  destruct (Z.of_nat (length (hb_data hb)) <=? i)%Z eqn:Ei; cbn [hb_data hb_end].
  - split; [reflexivity|]. apply Z.leb_le in Ei.
    destruct (Z.of_nat (length (hb_data hb)) <=? j)%Z eqn:Ej.
    + rewrite orb_true_r. reflexivity.
    + apply Z.leb_gt in Ej.
      replace (i =? j)%Z with false by (symmetry; apply Z.eqb_neq; lia). reflexivity.
  - rewrite RiserFacts.length_list_set. split; [reflexivity|]. apply Z.leb_gt in Ei.
    rewrite andb_false_l, orb_false_r.
    destruct (Z.of_nat (length (hb_data hb)) <=? j)%Z eqn:Ej.
    + apply Z.leb_le in Ej.
      replace (i =? j)%Z with false by (symmetry; apply Z.eqb_neq; lia). reflexivity.
    + apply Z.leb_gt in Ej. destruct (i =? j)%Z eqn:Eij.
      * apply Z.eqb_eq in Eij. subst j. apply RiserFacts.nth_list_set_eq. lia.
      * apply Z.eqb_neq in Eij. apply RiserFacts.nth_list_set_neq. lia.
Qed.

Lemma get_set_in : forall hb i j v, (0 <= i < getSize hb)%Z -> (0 <= j)%Z ->
  get (set hb i v) j = if (i =? j)%Z then v else get hb j.
Proof.
  intros hb i j v Hi Hj. destruct (get_set hb i j v ltac:(lia) Hj) as [_ ->].
  replace (getSize hb <=? i)%Z with false by (symmetry; apply Z.leb_gt; lia).
  rewrite andb_false_l, orb_false_r. reflexivity.
Qed.

Lemma mod_shift_neg : forall a n, (0 < n)%Z -> (- n <= a < 0)%Z -> (a mod n = a + n)%Z.
Proof.
  intros a n Hn Ha. rewrite <- (Z.mod_add a 1 n) by lia. rewrite Z.mul_1_l.
  apply Z.mod_small. lia.
Qed.

Lemma getReadIndex_mod : forall k rb,
  (0 <= writeIndex rb < size rb)%Z -> (size rb + size rb <= UINT_MOD)%Z ->
  (0 <= k <= writeIndex rb + size rb)%Z ->
  getReadIndex k rb = ((writeIndex rb - k) mod size rb)%Z.
Proof.
  intros k rb Hw Hs Hk. unfold getReadIndex.
  rewrite RingFacts.u32_small by lia.
  destruct (size rb <=? writeIndex rb - k + size rb)%Z eqn:E.
  - apply Z.leb_le in E. rewrite Z.mod_small by lia. lia.
  - apply Z.leb_gt in E. rewrite mod_shift_neg by lia. reflexivity.
Qed.

Lemma mod_sub_ne : forall w d n, (0 <= w < n)%Z -> (0 < d < n)%Z -> ((w - d) mod n <> w)%Z.
Proof.
  intros w d n Hw Hd. destruct (Z_le_gt_dec d w) as [H|H].
  - rewrite Z.mod_small by lia. lia.
  - rewrite mod_shift_neg by lia. lia.
Qed.

End HeapFacts.

(** X7. Writing through [HeapBlock::operator[]] at an index [i] inside the
    allocation keeps the size and changes exactly that element: a later
    read at an index [j] inside the allocation sees the new value when
    [j = i] and the old one otherwise. *)
Theorem heap_set_get (hb : Heap.HeapBlock) (i j : Z) (v : Q) :
  (0 <= i < Heap.getSize hb)%Z -> (0 <= j < Heap.getSize hb)%Z ->
  Heap.getSize (Heap.set hb i v) = Heap.getSize hb /\
  Heap.get (Heap.set hb i v) j = (if (i =? j)%Z then v else Heap.get hb j).
Proof.
  intros Hi Hj. split.
  - apply (proj1 (HeapFacts.get_set hb i j v ltac:(lia) ltac:(lia))).
  - apply HeapFacts.get_set_in; lia.
Qed.

Lemma heap_set_get_witness :
  Heap.get (Heap.set (Heap.mkHeapBlock [1; 2; 3] 0) 1 7) 1 = 7 /\
  Heap.get (Heap.set (Heap.mkHeapBlock [1; 2; 3] 0) 1 7) 2 = 3.
Proof.
  split.
  - rewrite (proj2 (heap_set_get (Heap.mkHeapBlock [1; 2; 3] 0) 1 1 7
                      ltac:(vm_compute; split; [discriminate | reflexivity])
                      ltac:(vm_compute; split; [discriminate | reflexivity]))).
    reflexivity.
  - rewrite (proj2 (heap_set_get (Heap.mkHeapBlock [1; 2; 3] 0) 1 2 7
                      ltac:(vm_compute; split; [discriminate | reflexivity])
                      ltac:(vm_compute; split; [discriminate | reflexivity]))).
    reflexivity.
Defined.

(** X8. [RingBuffer::prepare] keeps the allocation as long as the size,
    leaves every sample in range at 0, and stores the new sample rate, or 1
    when it is 0; this holds for any buffer whose allocation matches its
    size. *)
Theorem ring_prepare_clears (N R : Z) (rb : Ring.RingBuffer) :
  Heap.getSize (Ring.buffer rb) = Ring.size rb ->
  let rb' := Ring.prepare N R rb in
  Heap.getSize (Ring.buffer rb') = Ring.size rb' /\
  (forall i, (0 <= i < Ring.size rb')%Z -> Heap.get (Ring.buffer rb') i = 0) /\
  Ring.sampleRate rb' = (if (R =? 0)%Z then 1%Z else R).
Proof.
  intros H rb'.
  assert (Hbody : exists hb1 n1 sr1,
    rb' = Ring.clear (Ring.mkRing hb1 n1 (Ring.writeIndex (if negb (clampZ N 0 (u32 (N * R * 10)) =? Ring.size rb)%Z
                                                      then Ring.mkRing (Heap.reallocate (Ring.buffer rb) (clampZ (clampZ N 0 (u32 (N * R * 10))) 0 (u32 (R * 600))))
                                                             (clampZ (clampZ N 0 (u32 (N * R * 10))) 0 (u32 (R * 600))) 0 (Ring.sampleRate rb) (Ring.delaySmoothTime rb) (Ring.delayTime rb)
                                                      else rb))
                     sr1 (Ring.delaySmoothTime rb) (Ring.delayTime rb)) /\
    Heap.getSize hb1 = n1 /\ sr1 = (if (R =? 0)%Z then 1%Z else R)).
  { unfold rb', Ring.prepare.
    set (n0 := clampZ N 0 (u32 (N * R * 10))).
    destruct (negb (n0 =? Ring.size rb)%Z) eqn:E.
    - set (n2 := clampZ n0 0 (u32 (R * 600))).
      assert (Hn2 : (0 <= n2)%Z)
        by (apply RingInvariant.clampZ_range, RingInvariant.u32_range).
      do 3 eexists. split; [reflexivity|]. cbn [Ring.sampleRate Ring.buffer Ring.size]. split.
      + unfold Heap.getSize, Heap.reallocate. cbn [Heap.hb_data].
        rewrite length_app, length_firstn, repeat_length. lia.
      + destruct (negb (R =? Ring.sampleRate rb)%Z) eqn:Er; [reflexivity|].
        apply negb_false_iff, Z.eqb_eq in Er. rewrite Er. reflexivity.
    - do 3 eexists. split; [reflexivity|]. split; [exact H|].
      destruct (negb (R =? Ring.sampleRate rb)%Z) eqn:Er; [reflexivity|].
      apply negb_false_iff, Z.eqb_eq in Er. rewrite Er. reflexivity. }
  destruct Hbody as [hb1 [n1 [sr1 [Hrb [Hsz Hsr]]]]].
  rewrite Hrb. unfold Ring.clear, Ring.with_buffer, Heap.initialise.
  cbn [Ring.buffer Ring.size Ring.sampleRate Heap.hb_data].
  split; [|split].
  - unfold Heap.getSize in *. cbn [Heap.hb_data]. rewrite repeat_length. exact Hsz.
  - intros i Hi. unfold Heap.get, Heap.getSize in *. cbn [Heap.hb_data].
    rewrite repeat_length, Hsz.
    replace (n1 <=? i)%Z with false by (symmetry; apply Z.leb_gt; lia).
    destruct (Nat.lt_ge_cases (Z.to_nat i) (length (Heap.hb_data hb1))) as [Hl|Hl].
    + apply nth_repeat.
    + apply nth_overflow. rewrite repeat_length. exact Hl.
  - exact Hsr.
Qed.

Lemma ring_prepare_clears_witness :
  let rb := Ring.mkRing (Heap.mkHeapBlock [1; 2; 3; 4] 0) 4 2 44100 0 (Smooth.init 0) in
  let rb' := Ring.prepare 8 4 rb in
  Heap.getSize (Ring.buffer rb') = Ring.size rb' /\ Ring.size rb' = 8%Z /\
  Heap.get (Ring.buffer rb') 2 = 0 /\ Heap.get (Ring.buffer rb') 7 = 0 /\
  Ring.sampleRate rb' = 4%Z.
Proof.
  intros rb rb'.
  pose proof (ring_prepare_clears 8 4 rb eq_refl) as H. cbv zeta in H.
  destruct H as (H1 & H2 & H3).
  assert (Hs : Ring.size rb' = 8%Z) by reflexivity.
  split; [exact H1|]. split; [exact Hs|].
  split; [apply H2; fold rb'; rewrite Hs; lia|].
  split; [apply H2; fold rb'; rewrite Hs; lia|].
  exact H3.
Defined.

(** X9. For a buffer with [0 <= writeIndex < size] (and [2 size <= 2^32]),
    [getReadIndex k] is [(writeIndex - k) mod size] for every offset
    [0 <= k <= writeIndex + size], in particular below [size]; a larger
    offset below [2^32 - size] gives [2^32 + writeIndex - k], an index past
    the end of the buffer. *)
Theorem getReadIndex_offsets (k : Z) (rb : Ring.RingBuffer) :
  (0 <= Ring.writeIndex rb < Ring.size rb)%Z -> (Ring.size rb + Ring.size rb <= UINT_MOD)%Z ->
  ((0 <= k <= Ring.writeIndex rb + Ring.size rb)%Z ->
   Ring.getReadIndex k rb = ((Ring.writeIndex rb - k) mod Ring.size rb)%Z /\
   (0 <= Ring.getReadIndex k rb < Ring.size rb)%Z) /\
  ((Ring.writeIndex rb + Ring.size rb < k < UINT_MOD - Ring.size rb)%Z ->
   Ring.getReadIndex k rb = (UINT_MOD + Ring.writeIndex rb - k)%Z /\
   (Ring.size rb <= Ring.getReadIndex k rb)%Z).
Proof.
  intros Hw Hs. split.
  - intros Hk. rewrite HeapFacts.getReadIndex_mod by assumption.
    split; [reflexivity|]. apply Z.mod_pos_bound. lia.
  - intros Hk. unfold Ring.getReadIndex, u32.
    assert (HM : (0 < UINT_MOD)%Z) by reflexivity.
    rewrite (HeapFacts.mod_shift_neg _ UINT_MOD HM) by lia.
    replace (Ring.size rb <=? Ring.writeIndex rb - k + Ring.size rb + UINT_MOD)%Z with true
      by (symmetry; apply Z.leb_le; lia).
    split; lia.
Qed.

Lemma getReadIndex_offsets_witness :
  Ring.getReadIndex 3 (Ring.mkRing (Heap.mkHeapBlock [0; 0; 0; 0] 0) 4 1 1 0 (Smooth.init 0))
  = ((1 - 3) mod 4)%Z.
Proof.
  apply (getReadIndex_offsets 3 (Ring.mkRing (Heap.mkHeapBlock [0; 0; 0; 0] 0) 4 1 1 0
           (Smooth.init 0))); cbn; try reflexivity; lia.
Defined.

(** X10. Pushing [x] into a buffer with [0 <= writeIndex < size], whose
    allocation matches its size, moves the write index to
    [(writeIndex + 1) mod size]; a read at offset 1 then returns [x], and a
    read at offset [k] (for [2 <= k <= size]) returns what offset [k - 1]
    returned before the push. Offset [size] reads the oldest sample. *)
Theorem ring_push_shifts (x : Q) (rb : Ring.RingBuffer) :
  (0 <= Ring.writeIndex rb < Ring.size rb)%Z ->
  Heap.getSize (Ring.buffer rb) = Ring.size rb ->
  (Ring.size rb + Ring.size rb <= UINT_MOD)%Z ->
  let rb' := Ring.pushToBuffer (Some x) rb in
  Ring.writeIndex rb' = ((Ring.writeIndex rb + 1) mod Ring.size rb)%Z /\
  Heap.get (Ring.buffer rb') (Ring.getReadIndex 1 rb') = x /\
  (forall k, (2 <= k <= Ring.size rb)%Z ->
     Heap.get (Ring.buffer rb') (Ring.getReadIndex k rb') =
     Heap.get (Ring.buffer rb) (Ring.getReadIndex (k - 1) rb)).
Proof.
  intros Hw Hlen Hs rb'.
  destruct rb as [hb N w sr dst dt]. cbn [Ring.writeIndex Ring.size Ring.buffer] in *.
  assert (Hw' : Ring.writeIndex rb' = ((w + 1) mod N)%Z).
  { unfold rb', Ring.pushToBuffer, Ring.incrementWritePointer, Ring.with_buffer.
    cbn [Ring.writeIndex Ring.size]. rewrite RingFacts.u32_small by lia.
    destruct (N <=? w + 1)%Z eqn:E.
    - apply Z.leb_le in E. replace (w + 1)%Z with N by lia.
      rewrite Z.mod_same by lia. lia.
    - apply Z.leb_gt in E. rewrite Z.mod_small by lia. reflexivity. }
  assert (Hrb' : Ring.buffer rb' = Heap.set hb w x /\ Ring.size rb' = N).
  { split; reflexivity. }
  destruct Hrb' as [Hb' HN'].
  assert (Hw'r : (0 <= Ring.writeIndex rb' < Ring.size rb')%Z)
    by (rewrite Hw', HN'; apply Z.mod_pos_bound; lia).
  assert (Hidx : forall k, (1 <= k <= N)%Z ->
            Ring.getReadIndex k rb' = ((w - (k - 1)) mod N)%Z).
  { intros k Hk. rewrite HeapFacts.getReadIndex_mod; rewrite ?HN'; try lia.
    rewrite Hw', Zminus_mod_idemp_l. f_equal. lia. }
  split; [exact Hw'|]. split.
  - rewrite Hidx by lia. rewrite Hb'.
    replace ((w - (1 - 1)) mod N)%Z with w by (rewrite Z.sub_0_r, Z.mod_small; lia).
    rewrite HeapFacts.get_set_in by lia. rewrite Z.eqb_refl. reflexivity.
  - intros k Hk. rewrite Hidx by lia. rewrite Hb'.
    rewrite HeapFacts.get_set_in.
    + replace (w =? (w - (k - 1)) mod N)%Z with false.
      * rewrite HeapFacts.getReadIndex_mod by (cbn [Ring.writeIndex Ring.size]; lia).
        reflexivity.
      * symmetry. apply Z.eqb_neq. intro E. symmetry in E.
        exact (HeapFacts.mod_sub_ne w (k - 1) N ltac:(lia) ltac:(lia) E).
    + lia.
    + apply Z.mod_pos_bound. lia.
Qed.

Lemma ring_push_shifts_witness :
  let rb := Ring.mkRing (Heap.mkHeapBlock [1; 2; 3] 0) 3 2 1 0 (Smooth.init 0) in
  Heap.get (Ring.buffer (Ring.pushToBuffer (Some 9) rb))
    (Ring.getReadIndex 1 (Ring.pushToBuffer (Some 9) rb)) = 9.
Proof.
  intros rb. apply (ring_push_shifts 9 rb); cbn; try reflexivity; lia.
Defined.

(** X11. [Filter::process] has a steady state for every constant input [c]:
    with the delay registers at [dly1 = c (a1 + a2) - (b1 + b2) y] and
    [dly2 = c a2 - b2 y], where [y = c (a0 + a1 + a2) / (1 + b1 + b2)], an
    enabled filter outputs [y] and leaves the registers (and everything
    else) as they were, so it keeps outputting [y]. *)
Theorem biquad_dc_steady_state (c : Q) (f : Biquad.Filter) :
  let co := Biquad.co f in
  let y := c * ((Biquad.a0 co + Biquad.a1 co + Biquad.a2 co)
                / (1 + Biquad.b1 co + Biquad.b2 co)) in
  Biquad.enabled (Biquad.parameters f) = true ->
  ~ 1 + Biquad.b1 co + Biquad.b2 co == 0 ->
  Biquad.dly1 co == c * (Biquad.a1 co + Biquad.a2 co) - (Biquad.b1 co + Biquad.b2 co) * y ->
  Biquad.dly2 co == c * Biquad.a2 co - Biquad.b2 co * y ->
  match Biquad.process (Some c) f with
  | Some (out, f') =>
      out == y /\ Biquad.dly1 (Biquad.co f') == Biquad.dly1 co /\
      Biquad.dly2 (Biquad.co f') == Biquad.dly2 co /\
      Biquad.parameters f' = Biquad.parameters f /\ Biquad.sampleRate f' = Biquad.sampleRate f /\
      Biquad.set_dly (Biquad.co f') 0 0 = Biquad.set_dly co 0 0
  | None => False
  end.
Proof.
  intros co y He HD H1 H2. unfold Biquad.process. rewrite He. cbn [negb].
  destruct f as [p sr [a0 a1 a2 b1 b2 d1 d2 k k2 n pq pc ps]].
  unfold co, y in *. cbn in *.
  assert (Hout : c * a0 + d1 == c * ((a0 + a1 + a2) / (1 + b1 + b2))).
  { rewrite H1. field. exact HD. }
  split; [exact Hout|]. split; [|split; [|split; [reflexivity|split; reflexivity]]].
  - rewrite Hout, H1, H2. ring.
  - rewrite Hout, H2. ring.
Qed.

(* A lowpass with the coefficients [setCoefficients] computes for
   [k = 1/2] and [Q = 1/2], its registers at the steady state for input 3. *)
Lemma biquad_dc_steady_state_witness :
  let co := Biquad.mkCoeffs (1 # 9) (2 # 9) (1 # 9) (-2 # 3) (1 # 9) (8 # 3) 0
              (1 # 2) (1 # 4) (4 # 9) (1 # 2) 0 0 in
  let f := Biquad.mkFilter (Biquad.mkParams Biquad.lowpass 0 (1 # 2) true) 44100 co in
  exists out f', Biquad.process (Some 3) f = Some (out, f') /\ out == 3 /\
    Biquad.dly1 (Biquad.co f') == 8 # 3 /\ Biquad.dly2 (Biquad.co f') == 0.
Proof.
  intros co f.
  pose proof (biquad_dc_steady_state 3 f eq_refl
                ltac:(intro E; vm_compute in E; discriminate E)
                ltac:(vm_compute; reflexivity) ltac:(vm_compute; reflexivity)) as H.
  destruct (Biquad.process (Some 3) f) as [[out f']|]; [|contradiction].
  exists out, f'. split; [reflexivity|]. destruct H as (Hy & H1 & H2 & _).
  split; [rewrite Hy; vm_compute; reflexivity|].
  split; [rewrite H1; vm_compute; reflexivity | rewrite H2; vm_compute; reflexivity].
Defined.

(** ** The reverb's comb loops *)
Module ReverbFacts.
Import Reverb.



End ReverbFacts.



(** ** The riser's parameter mapping *)
Module RiserParamFacts.
Import Riser.

Lemma dz_fst_bind : forall {A B} (m : DZ A) (k : A -> DZ B), fst (dz_bind m k) = fst (k (fst m)).
Proof. intros A B [a z] k. cbn. destruct (k a). reflexivity. Qed.

Ltac calc_simpl :=
  unfold calculateValues; cbv zeta; repeat (rewrite dz_fst_bind; cbv beta);
  unfold dz_ret; cbn [fst snd flangerParams lowpassParams highpassParams reverbParams
                      flanger lowpass highpass reverb masterAmount reverbAmount
                      filterAmount flangerAmount Comb.freq Comb.wet Comb.feedback
                      Comb.interpType Biquad.cutoff Biquad.q Biquad.type Biquad.enabled
                      Reverb.damping Reverb.size Reverb.mix Reverb.width Reverb.spread
                      Reverb.numEarlyCombs Reverb.numLateCombs].

Lemma mapValue_eq : forall v lo hi, mapValue v lo hi == v * (hi - lo) + lo.
Proof. intros v lo hi. unfold mapValue, Math.map. field. Qed.

Lemma mv_lo : forall v lo hi, 0 <= v <= 1 -> lo <= hi -> lo <= mapValue v lo hi.
Proof. intros v lo hi Hv H. rewrite mapValue_eq. nra. Qed.
Lemma mv_hi : forall v lo hi, 0 <= v <= 1 -> lo <= hi -> mapValue v lo hi <= hi.
Proof. intros v lo hi Hv H. rewrite mapValue_eq. nra. Qed.
Lemma mv_lo' : forall v lo hi, 0 <= v <= 1 -> hi <= lo -> hi <= mapValue v lo hi.
Proof. intros v lo hi Hv H. rewrite mapValue_eq. nra. Qed.
Lemma mv_hi' : forall v lo hi, 0 <= v <= 1 -> hi <= lo -> mapValue v lo hi <= lo.
Proof. intros v lo hi Hv H. rewrite mapValue_eq. nra. Qed.

Lemma mv_up : forall v w lo hi, v <= w -> lo <= hi -> mapValue v lo hi <= mapValue w lo hi.
Proof. intros v w lo hi Hvw H. rewrite !mapValue_eq. nra. Qed.
Lemma mv_down : forall v w lo hi, v <= w -> hi <= lo -> mapValue w lo hi <= mapValue v lo hi.
Proof. intros v w lo hi Hvw H. rewrite !mapValue_eq. nra. Qed.

Lemma mv_at0 : forall v lo hi, v == 0 -> mapValue v lo hi == lo.
Proof. intros v lo hi Hv. rewrite mapValue_eq, Hv. ring. Qed.

Lemma clamp_mono : forall x y lo hi, lo <= hi -> x <= y -> Math.clamp x lo hi <= Math.clamp y lo hi.
Proof.
  intros x y lo hi H Hxy. unfold Math.clamp, Qltb.
  destruct (Qle_bool lo x) eqn:E1, (Qle_bool lo y) eqn:E2; cbn [negb];
  try destruct (Qle_bool x hi) eqn:E3; try destruct (Qle_bool y hi) eqn:E4; cbn [negb];
  repeat match goal with
         | E : Qle_bool _ _ = true |- _ => apply Qle_bool_iff in E
         | E : Qle_bool ?a ?b = false |- _ =>
             assert (b < a) by (apply Qnot_le_lt; intro Hc; apply Qle_bool_iff in Hc; congruence);
             clear E
         end; lra.
Qed.

(** The amount of a knob after [setParameters]: its clamped value times the
    clamped master amount. *)
Lemma amount_range : forall x m, 0 <= Math.clamp x 0 1 * Math.clamp m 0 1 <= 1.
Proof.
  intros x m.
  pose proof (CombFacts.clamp_bounds x 0 1 ltac:(discriminate)).
  pose proof (CombFacts.clamp_bounds m 0 1 ltac:(discriminate)). nra.
Qed.

Lemma amount_mono : forall x x' m m', x <= x' -> m <= m' ->
  Math.clamp x 0 1 * Math.clamp m 0 1 <= Math.clamp x' 0 1 * Math.clamp m' 0 1.
Proof.
  intros x x' m m' Hx Hm.
  pose proof (clamp_mono x x' 0 1 ltac:(discriminate) Hx).
  pose proof (clamp_mono m m' 0 1 ltac:(discriminate) Hm).
  pose proof (CombFacts.clamp_bounds x 0 1 ltac:(discriminate)).
  pose proof (CombFacts.clamp_bounds m' 0 1 ltac:(discriminate)). nra.
Qed.

Lemma ER_unit : forall x c, 0 <= x <= 1 -> 0 <= Math.ExpRounder x c <= 1.
Proof. apply MathFacts.ExpRounder_unit. Qed.

Lemma ER_zero : forall x c, x == 0 -> Math.ExpRounder x c == 0.
Proof.
  intros x c Hx. destruct (MathFacts.ExpRounder_curve c) as [cm [_ [_ [Hn _]]]].
  rewrite (Hn x) by lra. rewrite Hx. unfold Qdiv. ring.
Qed.

Lemma comb_stores : forall p off cf, 0 <= Comb.feedback p <= 1 ->
  Comb.parameters (Comb.setParameters p off cf) = p.
Proof.
  intros [fr w fb it] off cf H. cbn in *.
  rewrite RingFacts.clamp_in by (destruct H; assumption). reflexivity.
Qed.

Lemma biquad_stores : forall p f, Biquad.parameters (fst (Biquad.setParameters p f)) = p.
Proof.
  intros p f. destruct (Biquad.enabled p) eqn:E.
  - pose proof (BiquadFacts.setParameters_fields p f E) as H. cbv zeta in H. apply H.
  - rewrite BiquadFacts.disabled_stores by exact E. reflexivity.
Qed.

Lemma reverb_stores : forall p rv, Reverb.parameters (Reverb.setParameters p rv) = p.
Proof.
  intros p rv. unfold Reverb.setParameters.
  repeat match goal with |- context [if ?b then _ else _] => destruct b end;
  reflexivity.
Qed.

End RiserParamFacts.

(** X13. After [RiserProcessor::setParameters], whatever the arguments and
    the previous state: the master amount lies in [[0, 1]] and each effect
    amount in [[0, master]]; the flanger has [wet] in [[0, 0.75]], [freq]
    in [[20, 280]] and [feedback] in [[0, 0.55]]; the lowpass has its cutoff
    in [[4000, 20000]] and [Q] in [[0.5, 0.85]]; the highpass has its cutoff
    in [[10, 200]] and [Q] in [[float(M_SQRT1_2), 1]]; the reverb has [mix]
    in [[0, 0.75]], [size] in [[0.01, 0.45]], [width] in [[0.6, 1]] and
    [spread] in [[0.5, 1.5]]. Both flangers, both filters of each kind and
    the reverb store exactly these parameter objects. *)
Theorem riser_setParameters_ranges (d f r m : Q) (st : Riser.RiserProcessor) :
  let st' := fst (Riser.setParameters d f r m st) in
  let fp := Riser.flangerParams st' in
  let lpp := Riser.lowpassParams st' in
  let hpp := Riser.highpassParams st' in
  let rp := Riser.reverbParams st' in
  (0 <= Riser.masterAmount st' <= 1 /\
   0 <= Riser.flangerAmount st' <= Riser.masterAmount st' /\
   0 <= Riser.filterAmount st' <= Riser.masterAmount st' /\
   0 <= Riser.reverbAmount st' <= Riser.masterAmount st') /\
  (0 <= Comb.wet fp <= 75 # 100 /\ 20 <= Comb.freq fp <= 280 /\ 0 <= Comb.feedback fp <= 55 # 100) /\
  (4000 <= Biquad.cutoff lpp <= 20000 /\ 5 # 10 <= Biquad.q lpp <= 85 # 100) /\
  (10 <= Biquad.cutoff hpp <= 200 /\ Riser.M_SQRT1_2f <= Biquad.q hpp <= 1) /\
  (0 <= Reverb.mix rp <= 75 # 100 /\ 1 # 100 <= Reverb.size rp <= 45 # 100 /\
   6 # 10 <= Reverb.width rp <= 1 /\ 5 # 10 <= Reverb.spread rp <= 15 # 10) /\
  (Comb.parameters (fst (Riser.flanger st')) = fp /\
   Comb.parameters (snd (Riser.flanger st')) = fp /\
   Biquad.parameters (fst (Riser.lowpass st')) = lpp /\
   Biquad.parameters (snd (Riser.lowpass st')) = lpp /\
   Biquad.parameters (fst (Riser.highpass st')) = hpp /\
   Biquad.parameters (snd (Riser.highpass st')) = hpp /\
   Reverb.parameters (Riser.reverb st') = rp).
Proof.
  cbv zeta. unfold Riser.setParameters. RiserParamFacts.calc_simpl.
  pose proof (CombFacts.clamp_bounds m 0 1 ltac:(discriminate)) as Hm.
  pose proof (CombFacts.clamp_bounds d 0 1 ltac:(discriminate)) as Hd.
  pose proof (CombFacts.clamp_bounds f 0 1 ltac:(discriminate)) as Hf.
  pose proof (CombFacts.clamp_bounds r 0 1 ltac:(discriminate)) as Hr.
  pose proof (RiserParamFacts.amount_range d m) as Ad.
  pose proof (RiserParamFacts.amount_range f m) as Af.
  pose proof (RiserParamFacts.amount_range r m) as Ar.
  set (ad := Math.clamp d 0 1 * Math.clamp m 0 1) in *.
  set (af := Math.clamp f 0 1 * Math.clamp m 0 1) in *.
  set (ar := Math.clamp r 0 1 * Math.clamp m 0 1) in *.
  set (cm := Math.clamp m 0 1) in *.
  split; [|split; [|split; [|split; [|split]]]].
  - repeat split; try lra; unfold ad, af, ar; nra.
  - repeat split;
      first [ apply RiserParamFacts.mv_lo | apply RiserParamFacts.mv_hi ];
      first [ apply RiserParamFacts.ER_unit; exact Ad | exact Ad | lra ].
  - repeat split;
      first [ apply RiserParamFacts.mv_lo' | apply RiserParamFacts.mv_hi'
            | apply RiserParamFacts.mv_lo | apply RiserParamFacts.mv_hi ];
      first [ apply RiserParamFacts.ER_unit; exact Af | lra ].
  - repeat split;
      first [ apply RiserParamFacts.mv_lo | apply RiserParamFacts.mv_hi ];
      first [ apply RiserParamFacts.ER_unit; exact Af | unfold Riser.M_SQRT1_2f; lra ].
  - repeat split;
      first [ apply RiserParamFacts.mv_lo | apply RiserParamFacts.mv_hi
            | apply RiserParamFacts.mv_lo' | apply RiserParamFacts.mv_hi' ];
      first [ apply RiserParamFacts.ER_unit; exact Ar | exact Ar | lra ].
  - assert (Hfb : 0 <= Riser.mapValue ad 0 (55 # 100) <= 1).
    { split; [apply RiserParamFacts.mv_lo; [exact Ad | lra]|].
      pose proof (RiserParamFacts.mv_hi ad 0 (55 # 100) Ad ltac:(lra)). lra. }
    split; [apply RiserParamFacts.comb_stores; exact Hfb|].
    split; [apply RiserParamFacts.comb_stores; exact Hfb|].
    split; [apply RiserParamFacts.biquad_stores|].
    split; [apply RiserParamFacts.biquad_stores|].
    split; [apply RiserParamFacts.biquad_stores|].
    split; [apply RiserParamFacts.biquad_stores|].
    apply RiserParamFacts.reverb_stores.
Qed.

(** X14. [RiserProcessor::setParameters] is monotone in its four knobs:
    turning any of them up (from any previous state) never lowers the
    flanger's [wet], [freq] or [feedback], the filters' [Q]s, the highpass
    cutoff or the reverb's [mix], [size] and [spread], and never raises the
    lowpass cutoff or the reverb's [width]. *)
Theorem riser_knobs_monotone (d f r m d' f' r' m' : Q) (st1 st2 : Riser.RiserProcessor)
  (Hd : d <= d') (Hf : f <= f') (Hr : r <= r') (Hm : m <= m') :
  let s := fst (Riser.setParameters d f r m st1) in
  let s' := fst (Riser.setParameters d' f' r' m' st2) in
  (Comb.wet (Riser.flangerParams s) <= Comb.wet (Riser.flangerParams s') /\
   Comb.freq (Riser.flangerParams s) <= Comb.freq (Riser.flangerParams s') /\
   Comb.feedback (Riser.flangerParams s) <= Comb.feedback (Riser.flangerParams s')) /\
  (Biquad.cutoff (Riser.lowpassParams s') <= Biquad.cutoff (Riser.lowpassParams s) /\
   Biquad.q (Riser.lowpassParams s) <= Biquad.q (Riser.lowpassParams s')) /\
  (Biquad.cutoff (Riser.highpassParams s) <= Biquad.cutoff (Riser.highpassParams s') /\
   Biquad.q (Riser.highpassParams s) <= Biquad.q (Riser.highpassParams s')) /\
  (Reverb.mix (Riser.reverbParams s) <= Reverb.mix (Riser.reverbParams s') /\
   Reverb.size (Riser.reverbParams s) <= Reverb.size (Riser.reverbParams s') /\
   Reverb.width (Riser.reverbParams s') <= Reverb.width (Riser.reverbParams s) /\
   Reverb.spread (Riser.reverbParams s) <= Reverb.spread (Riser.reverbParams s')).
Proof.
  cbv zeta. unfold Riser.setParameters. RiserParamFacts.calc_simpl.
  pose proof (RiserParamFacts.amount_mono d d' m m' Hd Hm) as Md.
  pose proof (RiserParamFacts.amount_mono f f' m m' Hf Hm) as Mf.
  pose proof (RiserParamFacts.amount_mono r r' m m' Hr Hm) as Mr.
  pose proof (RiserParamFacts.amount_range d m) as Ad.
  pose proof (RiserParamFacts.amount_range f m) as Af.
  pose proof (RiserParamFacts.amount_range r m) as Ar.
  pose proof (RiserParamFacts.amount_range d' m') as Ad'.
  pose proof (RiserParamFacts.amount_range f' m') as Af'.
  pose proof (RiserParamFacts.amount_range r' m') as Ar'.
  set (ad := Math.clamp d 0 1 * Math.clamp m 0 1) in *.
  set (af := Math.clamp f 0 1 * Math.clamp m 0 1) in *.
  set (ar := Math.clamp r 0 1 * Math.clamp m 0 1) in *.
  set (ad' := Math.clamp d' 0 1 * Math.clamp m' 0 1) in *.
  set (af' := Math.clamp f' 0 1 * Math.clamp m' 0 1) in *.
  set (ar' := Math.clamp r' 0 1 * Math.clamp m' 0 1) in *.
  repeat split;
    first [ apply RiserParamFacts.mv_up;
            first [ apply MathFacts.ExpRounder_mono; lra | lra | unfold Riser.M_SQRT1_2f; lra ]
          | apply RiserParamFacts.mv_down;
            first [ apply MathFacts.ExpRounder_mono; lra | lra ] ].
Qed.

Lemma riser_knobs_monotone_witness :
  Comb.wet (Riser.flangerParams (fst (Riser.setParameters (1 # 4) 0 0 (1 # 2) Riser.init)))
  <= Comb.wet (Riser.flangerParams (fst (Riser.setParameters (1 # 2) 0 0 (1 # 2) Riser.init))).
Proof.
  exact (proj1 (proj1 (riser_knobs_monotone (1 # 4) 0 0 (1 # 2) (1 # 2) 0 0 (1 # 2)
                          Riser.init Riser.init ltac:(discriminate) ltac:(discriminate)
                          ltac:(discriminate) ltac:(discriminate)))).
Defined.

(** X15. With the master amount at or below 0, [RiserProcessor::setParameters]
    zeroes the three effect amounts and puts every effect at its neutral end,
    whatever the other knobs: flanger [wet] 0, [freq] 20, [feedback] 0;
    lowpass cutoff 20000 and [Q] 0.5; highpass cutoff 10 and [Q]
    [float(M_SQRT1_2)]; reverb [mix] 0, [size] 0.01, [width] 1, [spread] 0.5. *)
Theorem riser_master_zero_neutral (d f r m : Q) (st : Riser.RiserProcessor) (Hm : m <= 0) :
  let st' := fst (Riser.setParameters d f r m st) in
  let fp := Riser.flangerParams st' in
  let lpp := Riser.lowpassParams st' in
  let hpp := Riser.highpassParams st' in
  let rp := Riser.reverbParams st' in
  (Riser.masterAmount st' == 0 /\ Riser.flangerAmount st' == 0 /\
   Riser.filterAmount st' == 0 /\ Riser.reverbAmount st' == 0) /\
  (Comb.wet fp == 0 /\ Comb.freq fp == 20 /\ Comb.feedback fp == 0) /\
  (Biquad.cutoff lpp == 20000 /\ Biquad.q lpp == 5 # 10) /\
  (Biquad.cutoff hpp == 10 /\ Biquad.q hpp == Riser.M_SQRT1_2f) /\
  (Reverb.mix rp == 0 /\ Reverb.size rp == 1 # 100 /\
   Reverb.width rp == 1 /\ Reverb.spread rp == 5 # 10).
Proof.
  cbv zeta. unfold Riser.setParameters. RiserParamFacts.calc_simpl.
  assert (Hc : Math.clamp m 0 1 == 0).
  { unfold Math.clamp, Qltb.
    destruct (Qle_bool 0 m) eqn:E; cbn [negb].
    - apply Qle_bool_iff in E.
      replace (Qle_bool m 1) with true by (symmetry; apply Qle_bool_iff; lra).
      cbn [negb]. lra.
    - reflexivity. }
  assert (Had : Math.clamp d 0 1 * Math.clamp m 0 1 == 0) by (rewrite Hc; ring).
  assert (Haf : Math.clamp f 0 1 * Math.clamp m 0 1 == 0) by (rewrite Hc; ring).
  assert (Har : Math.clamp r 0 1 * Math.clamp m 0 1 == 0) by (rewrite Hc; ring).
  repeat split;
    first [ assumption
          | apply RiserParamFacts.mv_at0;
            first [ assumption | apply RiserParamFacts.ER_zero; assumption ] ].
Qed.

Lemma riser_master_zero_neutral_witness :
  Biquad.cutoff (Riser.lowpassParams (fst (Riser.setParameters 1 1 1 0 Riser.init))) == 20000.
Proof.
  exact (proj1 (proj1 (proj2 (proj2 (riser_master_zero_neutral 1 1 1 0 Riser.init
                                       ltac:(discriminate)))))).
Defined.

(** X16. After any [RiserProcessor::setParameters] call the reverb's
    [spread] parameter is at least 0.5, so the spread amount that
    [Reverb::setCombs] derives from it, [clamp(spread, 0, 0.01) / 2], is
    always 0.005: the reverb knob never changes the comb detuning. *)
Theorem riser_reverb_spread_saturated (d f r m : Q) (st : Riser.RiserProcessor) :
  let rv := Riser.reverb (fst (Riser.setParameters d f r m st)) in
  Math.clamp (Reverb.spread (Reverb.parameters rv)) 0 (1 # 100) / 2 == 1 # 200.
Proof.
  cbv zeta. unfold Riser.setParameters. RiserParamFacts.calc_simpl.
  rewrite RiserParamFacts.reverb_stores. cbn [Reverb.spread].
  pose proof (RiserParamFacts.amount_range r m) as Ar.
  set (ar := Math.clamp r 0 1 * Math.clamp m 0 1) in *.
  pose proof (RiserParamFacts.mv_lo (Math.ExpRounder ar (3 # 10)) (5 # 10) (15 # 10)
                (RiserParamFacts.ER_unit ar (3 # 10) Ar) ltac:(discriminate)) as Hs.
  set (s := Riser.mapValue (Math.ExpRounder ar (3 # 10)) (5 # 10) (15 # 10)) in *.
  unfold Math.clamp, Qltb.
  replace (Qle_bool 0 s) with true by (symmetry; apply Qle_bool_iff; lra).
  replace (Qle_bool s (1 # 100)) with false.
  - reflexivity.
  - symmetry. apply not_true_iff_false. intro H. apply Qle_bool_iff in H. lra.
Qed.

(** ** The riser's process loop *)
Module ProcessFacts.
Import Riser.

Lemma processLoop_shape : forall fuel i left right st l' r' st',
  processLoop fuel i left right st = Some (l', r', st') ->
  length l' = length left /\ length r' = length right /\
  ((0 < fuel)%nat -> (i + fuel <= length left)%nat /\ (i + fuel <= length right)%nat) /\
  (forall j, (i + fuel <= j)%nat -> nth j l' 0 = nth j left 0 /\ nth j r' 0 = nth j right 0).
Proof.
  induction fuel as [|fuel IH]; intros i left right st l' r' st' H.
  - cbn in H. injection H as <- <- _.
    split; [reflexivity|]. split; [reflexivity|]. split; [lia|].
    intros j _. split; reflexivity.
  - cbn in H.
    destruct (nth_error left i) as [inL|] eqn:EL; [|discriminate].
    destruct (nth_error right i) as [inR|] eqn:ER; [|discriminate].
    destruct (processSample inL inR st) as [[[oL oR] st1]|]; [|discriminate].
    assert (HL : (i < length left)%nat) by (apply nth_error_Some; congruence).
    assert (HR : (i < length right)%nat) by (apply nth_error_Some; congruence).
    destruct (IH _ _ _ _ _ _ _ H) as [E1 [E2 [B F]]].
    rewrite RiserFacts.length_list_set in E1, E2.
    rewrite 2!RiserFacts.length_list_set in B.
    split; [exact E1|]. split; [exact E2|]. split.
    + intros _. destruct fuel as [|fuel']; [split; lia|].
      destruct (B ltac:(lia)) as [B1 B2]. split; lia.
    + intros j Hj. destruct (F j ltac:(lia)) as [F1 F2].
      rewrite F1, F2, !RiserFacts.nth_list_set_neq by lia. split; reflexivity.
Qed.

End ProcessFacts.

(** X17. When [RiserProcessor::process] on non-null arrays of at least
    [numSamples] samples completes, the arrays keep their lengths and every
    entry at an index from [numSamples] on is left as it was. *)
Theorem riser_process_frame (left right : list Q) (numSamples : Z) (st : Riser.RiserProcessor)
  (l' r' : list Q) (st' : Riser.RiserProcessor)
  (Hl : (Z.to_nat numSamples <= length left)%nat) (Hr : (Z.to_nat numSamples <= length right)%nat)
  (H : Riser.process left right numSamples st = Some (l', r', st')) :
  length l' = length left /\ length r' = length right /\
  (forall j, (Z.to_nat numSamples <= j)%nat ->
     nth j l' 0 = nth j left 0 /\ nth j r' 0 = nth j right 0).
Proof.
  unfold Riser.process in H.
  destruct (numSamples <=? 0)%Z eqn:E.
  - apply Z.leb_le in E. injection H as <- <- _.
    split; [reflexivity|]. split; [reflexivity|].
    intros j _. split; reflexivity.
  - apply Z.leb_gt in E.
    destruct (ProcessFacts.processLoop_shape _ _ _ _ _ _ _ _ H) as [E1 [E2 [_ F]]].
    split; [exact E1|]. split; [exact E2|].
    intros j Hj. apply F. lia.
Qed.

Lemma riser_process_frame_witness :
  let rb := Ring.prepare 4 4 Ring.init in
  let c := Comb.mkComb rb (Comb.mkParams 100 (1 # 2) (1 # 2) linearInterp) in
  let rc := Reverb.mkComb rb 0 in
  let rv := Reverb.mkReverb 4 (1 # 120) 0 1 (Smooth.init (1 # 2)) (Smooth.init (1 # 2))
              (Smooth.init 1) (Smooth.init 1) (Smooth.init 1) Reverb.defaultParameters
              [repeat rc 8; repeat rc 8] [repeat rc 4; repeat rc 4] [] [] in
  let st := Riser.mkRiser 1 1 1 1 (c, c) (Biquad.init, Biquad.init) (Biquad.init, Biquad.init) rv
              (Comb.parameters c) Biquad.defaultParameters Biquad.defaultParameters
              Reverb.defaultParameters in
  exists l' r' st', Riser.process [1; 2] [3; 4] 1 st = Some (l', r', st') /\
    length l' = 2%nat /\ nth 1 l' 0 = 2 /\ nth 1 r' 0 = 4.
Proof.
  intros rb c rc rv st.
  destruct (Riser.process [1; 2] [3; 4] 1 st) as [[[l' r'] st']|] eqn:E.
  - exists l', r', st'. split; [reflexivity|].
    destruct (riser_process_frame [1; 2] [3; 4] 1 st l' r' st'
                ltac:(cbn; lia) ltac:(cbn; lia) E) as [E1 [_ F]].
    destruct (F 1%nat ltac:(cbn; lia)) as [F1 F2].
    split; [exact E1|]. split; [exact F1 | exact F2].
  - vm_compute in E. discriminate.
Defined.

(** ** [prepare] after [calculateValues] *)
Module PrepareFacts.
Import Riser.

Lemma calc_fields : forall X,
  let X' := fst (calculateValues X) in
  (masterAmount X' = masterAmount X /\ reverbAmount X' = reverbAmount X /\
   filterAmount X' = filterAmount X /\ flangerAmount X' = flangerAmount X) /\
  flangerParams X' =
    Comb.mkParams (mapValue (flangerAmount X) 20 280)
      (mapValue (Math.ExpRounder (flangerAmount X) (3 # 10)) 0 (75 # 100))
      (mapValue (flangerAmount X) 0 (55 # 100)) (Comb.interpType (flangerParams X)) /\
  lowpassParams X' =
    Biquad.mkParams (Biquad.type (lowpassParams X))
      (mapValue (Math.ExpRounder (filterAmount X) (3 # 10)) 20000 4000)
      (mapValue (Math.ExpRounder (filterAmount X) (-6 # 10)) (5 # 10) (85 # 100))
      (Biquad.enabled (lowpassParams X)) /\
  highpassParams X' =
    Biquad.mkParams (Biquad.type (highpassParams X))
      (mapValue (Math.ExpRounder (filterAmount X) (-3 # 10)) 10 200)
      (mapValue (Math.ExpRounder (filterAmount X) (-5 # 10)) M_SQRT1_2f 1)
      (Biquad.enabled (highpassParams X)) /\
  reverbParams X' =
    Reverb.mkParams (Reverb.damping (reverbParams X))
      (mapValue (reverbAmount X) (1 # 100) (45 # 100))
      (mapValue (reverbAmount X) 0 (75 # 100))
      (mapValue (reverbAmount X) 1 (6 # 10))
      (mapValue (Math.ExpRounder (reverbAmount X) (3 # 10)) (5 # 10) (15 # 10))
      (Reverb.numEarlyCombs (reverbParams X)) (Reverb.numLateCombs (reverbParams X)).
Proof.
  intros X. cbv zeta. RiserParamFacts.calc_simpl.
  split; [repeat split; reflexivity|]. repeat split; reflexivity.
Qed.

Lemma calc_stores : forall X, 0 <= flangerAmount X <= 1 ->
  let X' := fst (calculateValues X) in
  Comb.parameters (fst (flanger X')) = flangerParams X' /\
  Comb.parameters (snd (flanger X')) = flangerParams X' /\
  Biquad.parameters (fst (lowpass X')) = lowpassParams X' /\
  Biquad.parameters (snd (lowpass X')) = lowpassParams X' /\
  Biquad.parameters (fst (highpass X')) = highpassParams X' /\
  Biquad.parameters (snd (highpass X')) = highpassParams X' /\
  Reverb.parameters (reverb X') = reverbParams X'.
Proof.
  intros X HX. cbv zeta. RiserParamFacts.calc_simpl.
  assert (Hfb : 0 <= mapValue (flangerAmount X) 0 (55 # 100) <= 1).
  { split; [apply RiserParamFacts.mv_lo; [exact HX | discriminate]|].
    pose proof (RiserParamFacts.mv_hi (flangerAmount X) 0 (55 # 100) HX ltac:(discriminate)).
    lra. }
  split; [apply RiserParamFacts.comb_stores; exact Hfb|].
  split; [apply RiserParamFacts.comb_stores; exact Hfb|].
  split; [apply RiserParamFacts.biquad_stores|].
  split; [apply RiserParamFacts.biquad_stores|].
  split; [apply RiserParamFacts.biquad_stores|].
  split; [apply RiserParamFacts.biquad_stores|].
  apply RiserParamFacts.reverb_stores.
Qed.

(** [prepare] runs [calculateValues] again on the same amounts and
    parameter objects. *)
Lemma prepare_after_calc : forall X sr,
  let s1 := fst (calculateValues X) in
  let s2 := fst (prepare sr s1) in
  (masterAmount s2 = masterAmount s1 /\ flangerAmount s2 = flangerAmount s1 /\
   filterAmount s2 = filterAmount s1 /\ reverbAmount s2 = reverbAmount s1) /\
  (flangerParams s2 = flangerParams s1 /\ lowpassParams s2 = lowpassParams s1 /\
   highpassParams s2 = highpassParams s1 /\ reverbParams s2 = reverbParams s1).
Proof.
  intros X sr. cbv zeta. unfold prepare. cbv zeta.
  match goal with |- context [fst (calculateValues ?Y)] =>
    match Y with mkRiser _ _ _ _ _ _ _ _ _ _ _ _ =>
      destruct (calc_fields Y) as [[A1 [A2 [A3 A4]]] [P1 [P2 [P3 P4]]]] end end.
  destruct (calc_fields X) as [[B1 [B2 [B3 B4]]] [Q1 [Q2 [Q3 Q4]]]].
  cbv zeta in *.
  rewrite A1, A2, A3, A4, P1, P2, P3, P4.
  cbn [masterAmount reverbAmount filterAmount flangerAmount
       flangerParams lowpassParams highpassParams reverbParams].
  rewrite Q1, Q2, Q3, Q4, B1, B2, B3, B4. cbn.
  split; [repeat split; reflexivity|]. repeat split; reflexivity.
Qed.

End PrepareFacts.

(** X19. [RiserProcessor::prepare] after [setParameters] keeps what the
    knobs set: the four amounts and the four parameter objects are the ones
    [setParameters] computed, and the flangers, filters and reverb store
    those same parameter objects again, whatever the new sample rate. *)
Theorem riser_prepare_keeps_parameters (d f r m : Q) (sr : Z) (st : Riser.RiserProcessor) :
  let s1 := fst (Riser.setParameters d f r m st) in
  let s2 := fst (Riser.prepare sr s1) in
  (Riser.masterAmount s2 = Riser.masterAmount s1 /\
   Riser.flangerAmount s2 = Riser.flangerAmount s1 /\
   Riser.filterAmount s2 = Riser.filterAmount s1 /\
   Riser.reverbAmount s2 = Riser.reverbAmount s1) /\
  (Riser.flangerParams s2 = Riser.flangerParams s1 /\
   Riser.lowpassParams s2 = Riser.lowpassParams s1 /\
   Riser.highpassParams s2 = Riser.highpassParams s1 /\
   Riser.reverbParams s2 = Riser.reverbParams s1) /\
  (Comb.parameters (fst (Riser.flanger s2)) = Riser.flangerParams s1 /\
   Comb.parameters (snd (Riser.flanger s2)) = Riser.flangerParams s1 /\
   Biquad.parameters (fst (Riser.lowpass s2)) = Riser.lowpassParams s1 /\
   Biquad.parameters (snd (Riser.lowpass s2)) = Riser.lowpassParams s1 /\
   Biquad.parameters (fst (Riser.highpass s2)) = Riser.highpassParams s1 /\
   Biquad.parameters (snd (Riser.highpass s2)) = Riser.highpassParams s1 /\
   Reverb.parameters (Riser.reverb s2) = Riser.reverbParams s1).
Proof.
  cbv zeta. unfold Riser.setParameters. cbv zeta.
  set (X := Riser.mkRiser _ _ _ _ _ _ _ _ _ _ _ _).
  destruct (PrepareFacts.prepare_after_calc X sr) as [[A1 [A2 [A3 A4]]] [P1 [P2 [P3 P4]]]].
  cbv zeta in *.
  split; [repeat split; assumption|]. split; [repeat split; assumption|].
  rewrite <- P1, <- P2, <- P3, <- P4.
  apply PrepareFacts.calc_stores.
  destruct (PrepareFacts.calc_fields X) as [[_ [_ [_ B4]]] _].
  cbv zeta in B4. unfold Riser.prepare. cbv zeta. cbn [Riser.flangerAmount].
  rewrite B4. unfold X. cbn [Riser.flangerAmount].
  apply RiserParamFacts.amount_range.
Qed.
